(** * The webOS dynamic script loader ([node_webos.cpp]), embedded in Rocq

    The module exposes two native functions to a JavaScript engine:
    [include], which reads, compiles and runs one file in the current
    context, and [require], which builds a fresh context, seeds its global
    object and runs a list of files in it.

    The embedding keeps the shape of the C++ code.  A JavaScript object is a
    finite map from property names to values, the engine's objects live in a
    heap indexed by object identities, and every native function is a function
    on an explicit engine state.  The engine itself (file reader, compiler,
    path utilities, string conversion of objects) is a record of
    collaborators the definitions are parameterised by. *)

From Stdlib Require Import ZArith.
From stdpp Require Import base option list strings gmap fin_maps.

Local Open Scope string_scope.
Local Open Scope list_scope.

(** ** Values, objects and the engine state *)

Definition ObjId := nat.

(** [VError msg] stands for the object [Exception::Error(String::New(msg))]
    builds.  A number is an IEEE double, kept as its 64 bits; its text is the
    engine's to give. *)
Inductive Value :=
| VUndefined
| VNull
| VBool (b : bool)
| VNum (bits : Z)
| VStr (s : string)
| VObj (o : ObjId)
| VError (msg : string).

#[global] Instance Value_eq_dec : EqDecision Value.
Proof. solve_decision. Defined.

(** A [Handle<Value>]: [None] is the empty handle. *)
Definition Handle := option Value.

Definition IsEmpty (h : Handle) : bool :=
  match h with None => true | Some _ => false end.

Definition IsString (v : Value) : bool :=
  match v with VStr _ => true | _ => false end.

(** A C++ exception in flight: one derived from [std::exception], with its
    [what()] text, or anything else. *)
Inductive CxxException :=
| StdException (what : string)
| UnknownException.

#[global] Instance CxxException_eq_dec : EqDecision CxxException.
Proof. solve_decision. Defined.

(** How a native C++ function is left: by [return], or by a C++ exception
    that unwinds it. *)
Inductive Outcome :=
| Returned (h : Handle)
| CxxThrown (e : CxxException).

(** The completion of a piece of JavaScript. *)
Inductive Completion :=
| Normal (v : Value)
| Thrown (e : Value).

Abbreviation Props := (gmap string Value).
Abbreviation Heap := (gmap ObjId Props).

(** An execution context: its global object and its security token. *)
Record Context := MkContext {
  ctx_global : ObjId;
  ctx_token : Value
}.

(** What the loader does to the outside world, in order.  The log is ghost
    state: no definition below reads it. *)
Inductive Event :=
| EvRead (path : string)
| EvCompile (name : string)
| EvSetIdentity (global : ObjId) (path : string)
| EvRun (global : ObjId)
| EvClearIdentity (global : ObjId).

#[global] Instance Event_eq_dec : EqDecision Event.
Proof. solve_decision. Defined.

Record State := MkState {
  heap : Heap;                (* the engine's objects *)
  current : Context;          (* Context::GetCurrent() *)
  pending : option Value;     (* the exception scheduled by ThrowException *)
  trace : list Event
}.

Definition set_heap (h : Heap) (st : State) : State :=
  MkState h (current st) (pending st) (trace st).

Definition set_current (c : Context) (st : State) : State :=
  MkState (heap st) c (pending st) (trace st).

Definition set_pending (p : option Value) (st : State) : State :=
  MkState (heap st) (current st) p (trace st).

Definition log (e : Event) (st : State) : State :=
  MkState (heap st) (current st) (pending st) (trace st ++ [e]).

(** ** Scripts

    A compiled script is the tree of what it does when run: it finishes,
    changes the heap, looks at the heap, or calls the module's [include]
    with some arguments and goes on with what the call completed with.  The
    heap steps are given the global object of the context the script runs
    in. *)
Inductive Script :=
| SDone (c : Completion)
| SAct (f : ObjId -> Heap -> Heap) (k : Script)
| SRead (k : ObjId -> Heap -> Script)
| SInclude (arguments : list Value) (k : Completion -> Script).

(** Modelled from the spec: the file reader [createV8StringFromFile] of
    [external_string.h], which is not among the sources.  It yields the full
    text of the file, or the read fails with a raised error; the error is
    taken to be a C++ exception, the kind [IncludeScriptWrapper] catches. *)
Inductive FileRead :=
| Contents (source : string)
| ReadFailure (e : CxxException).

(** The collaborators the loader calls but does not define. *)
Record Engine := MkEngine {
  (* external_string.h: the text of a file, or a C++ exception *)
  createV8StringFromFile : string -> FileRead;
  (* v8::Script::Compile source name: an empty handle on a syntax error *)
  Script_Compile : string -> string -> option Script;
  (* boost::filesystem *)
  system_complete : string -> string;
  parent_path : string -> string;
  (* v8::String::Utf8Value of an object: NULL when the conversion fails *)
  ObjectToString : ObjId -> option string;
  (* the exception v8::Script::Compile source name leaves scheduled when it
     returns an empty handle *)
  CompileError : string -> string -> Value;
  (* the text of a number, from its bits *)
  NumberToString : Z -> string;
  (* the context the functions of the module were created in: the engine
     enters it whenever a script calls one of them *)
  ModuleContext : Context
}.

(** ** Engine primitives *)

(** [object->Get(name)]: a property that is not there reads as undefined. *)
Definition ObjGet (h : Heap) (o : ObjId) (name : string) : Value :=
  default VUndefined (h !! o ≫= (.!! name)).

(** [object->Set(name, v)]. *)
Definition ObjSet (o : ObjId) (name : string) (v : Value) (st : State) : State :=
  set_heap (<[o := <[name := v]> (default ∅ (heap st !! o))]> (heap st)) st.

(** A new object with no property of its own. *)
Definition NewObject (st : State) : ObjId * State :=
  let o := fresh (dom (heap st)) in
  (o, set_heap (<[o := ∅]> (heap st)) st).

(** [Context::New(NULL, globalTemplate)] with an empty template; a new
    context's security token is its own global object. *)
Definition Context_New (st : State) : Context * State :=
  let '(g, st) := NewObject st in
  (MkContext g (VObj g), st).

Definition SetSecurityToken (token : Value) (c : Context) : Context :=
  MkContext (ctx_global c) token.

Definition Exception_Error (msg : string) : Value := VError msg.

(** [ThrowException(e)] schedules [e] and returns undefined. *)
Definition ThrowException (e : Value) (st : State) : Handle * State :=
  (Some VUndefined, set_pending (Some e) st).

(** [v8::String::Utf8Value]: the text of the value, [None] being the NULL the
    conversion leaves when it fails. *)
Definition Utf8Value (E : Engine) (v : Value) : option string :=
  match v with
  | VUndefined => Some "undefined"
  | VNull => Some "null"
  | VBool b => Some (if b then "true" else "false")
  | VNum bits => Some (NumberToString E bits)
  | VStr s => Some s
  | VObj o => ObjectToString E o
  | VError msg => Some (String.append "Error: " msg)
  end.

(** The C string a [char*] into a text denotes: the text up to its first
    NUL.  [*fileName] of a [Utf8Value] is such a pointer. *)
Fixpoint c_str (s : string) : string :=
  match s with
  | EmptyString => EmptyString
  | String c rest =>
      if Ascii.eqb c Ascii.zero then EmptyString else String c (c_str rest)
  end.

(** ** The loader *)

Definition kFileNameGlobal : string := "__filename".
Definition kDirNameGlobal : string := "__dirname".

Section Loader.

Variable E : Engine.

Definition SetFileAndDirectoryGlobals (global : ObjId) (path : string)
    (st : State) : State :=
  let pathToFile := system_complete E path in
  let pathToParentDir := parent_path E pathToFile in
  let st := log (EvSetIdentity global path) st in
  let st := ObjSet global kFileNameGlobal (VStr pathToFile) st in
  ObjSet global kDirNameGlobal (VStr pathToParentDir) st.

Definition ClearFileAndDirectoryGlobals (global : ObjId) (st : State) : State :=
  let st := log (EvClearIdentity global) st in
  let st := ObjSet global kFileNameGlobal VUndefined st in
  ObjSet global kDirNameGlobal VUndefined st.

(** Running a script tree.  [native] is the [include] function as the script
    sees it, context switch included (see [native_include]): an exception the
    call leaves scheduled is thrown into the script. *)
Fixpoint RunScript (native : list Value -> State -> Handle * State)
    (s : Script) (st : State) : Completion * State :=
  match s with
  | SDone c => (c, st)
  | SAct f k =>
      RunScript native k (set_heap (f (ctx_global (current st)) (heap st)) st)
  | SRead k => RunScript native (k (ctx_global (current st)) (heap st)) st
  | SInclude arguments k =>
      let '(h, st1) := native arguments st in
      match pending st1 with
      | Some e => RunScript native (k (Thrown e)) (set_pending None st1)
      | None => RunScript native (k (Normal (default VUndefined h))) st1
      end
  end.

(** [compiledScript->Run()]: an empty handle and a scheduled exception when
    the script throws. *)
Definition Script_Run (native : list Value -> State -> Handle * State)
    (s : Script) (st : State) : Handle * State :=
  let st := log (EvRun (ctx_global (current st))) st in
  match RunScript native s st with
  | (Normal v, st) => (Some v, st)
  | (Thrown e, st) => (None, set_pending (Some e) st)
  end.

(** [IncludeScript]: the result pairs the way the function is left with the
    value of the [exceptionOccurred] out-parameter at that moment. *)
Definition IncludeScript_in (native : list Value -> State -> Handle * State)
    (pathToScriptSource : option string) (st : State)
    : Outcome * bool * State :=
  match pathToScriptSource with
  | None | Some EmptyString =>
      let '(h, st) := ThrowException (Exception_Error
        "webOS 'include' requires a non-empty filename argument.") st in
      (Returned h, true, st)
  | Some path =>
      let returnValue := Some VUndefined in
      let st := log (EvRead path) st in
      match createV8StringFromFile E path with
      | ReadFailure e => (CxxThrown e, true, st)
      | Contents scriptSource =>
          let st := log (EvCompile path) st in
          match Script_Compile E scriptSource path with
          | None =>
              (* the engine has scheduled its syntax error *)
              let st := set_pending
                          (Some (CompileError E scriptSource path)) st in
              (Returned returnValue, true, st)
          | Some compiledScript =>
              let currentContext := current st in
              let global := ctx_global currentContext in
              let st := SetFileAndDirectoryGlobals global path st in
              let '(returnValue, st) := Script_Run native compiledScript st in
              let st := ClearFileAndDirectoryGlobals global st in
              if IsEmpty returnValue then (Returned returnValue, true, st)
              else (Returned returnValue, false, st)
          end
      end
  end.

Definition IncludeScriptWrapper_in
    (native : list Value -> State -> Handle * State)
    (arguments : list Value) (st : State) : Handle * State :=
  match arguments with
  | [argument] =>
      let fileName := Utf8Value E argument in
      match IncludeScript_in native (c_str <$> fileName) st with
      | (Returned h, _, st) => (h, st)
      | (CxxThrown (StdException what), _, st) =>
          ThrowException (Exception_Error what) st
      | (CxxThrown UnknownException, _, st) =>
          ThrowException (Exception_Error
            "Native function threw an unknown exception.") st
      end
  | _ =>
      ThrowException (Exception_Error
        "Invalid number of parameters, 1 expected.") st
  end.

(** The [include] a running script can call, with [depth] frames of engine
    stack left: with none left the engine throws instead of entering the
    native function.  The engine runs the native function in the context the
    function was created in, [ModuleContext], whatever context the calling
    script runs in, and makes the caller's context current again when the
    function returns. *)
Fixpoint native_include (depth : nat) (arguments : list Value) (st : State)
    : Handle * State :=
  match depth with
  | 0 => ThrowException (Exception_Error "Maximum call stack size exceeded") st
  | S d =>
      let caller := current st in
      let '(h, st) := IncludeScriptWrapper_in (native_include d) arguments
                        (set_current (ModuleContext E) st) in
      (h, set_current caller st)
  end.

Definition IncludeScript (depth : nat) :=
  IncludeScript_in (native_include depth).

Definition IncludeScriptWrapper (depth : nat) :=
  IncludeScriptWrapper_in (native_include depth).

Definition CopyProperty (src dst : ObjId) (propertyName : string)
    (st : State) : State :=
  let v := ObjGet (heap st) src propertyName in
  ObjSet dst propertyName v st.

(** How the loop over the file list of [Require] is left. *)
Inductive LoopExit :=
| Completed                      (* i reached length *)
| Broke                          (* break: a load reported a failure *)
| Rejected (h : Handle)          (* return ThrowException(...) *)
| Unwound (e : CxxException).    (* a C++ exception left IncludeScript *)

Fixpoint load_files (depth : nat) (global : ObjId) (filePaths : list Value)
    (st : State) : LoopExit * State :=
  match filePaths with
  | [] => (Completed, st)
  | fileNameObject :: rest =>
      match fileNameObject with
      | VStr text =>               (* IsString; its Utf8Value is the text *)
          let fileName := c_str text in
          let st := SetFileAndDirectoryGlobals global fileName st in
          match IncludeScript depth (Some fileName) st with
          | (CxxThrown e, _, st) => (Unwound e, st)
          | (Returned _, exceptionOccurred, st) =>
              if exceptionOccurred then (Broke, st)
              else load_files depth global rest st
          end
      | _ =>
          let '(h, st) := ThrowException (Exception_Error
            "All elements of file paths array must be strings.") st in
          (Rejected h, st)
      end
  end.

(** The new context of [Require], seeded, with the utility context entered. *)
Definition seed_context (nativeRequire loader : Value) (st : State)
    : ObjId * State :=
  let currentContext := current st in
  let currentGlobal := ctx_global currentContext in
  let '(utilityContext, st) := Context_New st in
  let utilityContext :=
    SetSecurityToken (ctx_token currentContext) utilityContext in
  let st := set_current utilityContext st in
  let '(exportsInstance, st) := NewObject st in
  let global := ctx_global utilityContext in
  let st := ObjSet global "exports" (VObj exportsInstance) st in
  let st := ObjSet global "global" (VObj global) st in
  let st := ObjSet global "globals" (VObj currentGlobal) st in
  let st := ObjSet global "root" (VObj currentGlobal) st in
  let st := ObjSet global "MojoLoader" loader st in
  let st := ObjSet global "require" nativeRequire st in
  let st := CopyProperty currentGlobal global "console" st in
  let st := CopyProperty currentGlobal global "setTimeout" st in
  let st := CopyProperty currentGlobal global "clearTimeout" st in
  let st := CopyProperty currentGlobal global "setInterval" st in
  let st := CopyProperty currentGlobal global "clearInterval" st in
  (global, st).

(** [Require].  Leaving the function, by any path, destroys [utilityScope]
    and makes the caller's context current again. *)
Definition Require (depth : nat) (nativeRequire loader : Value)
    (filePaths : list Value) (st : State) : Outcome * State :=
  let currentContext := current st in
  let '(global, st) := seed_context nativeRequire loader st in
  match load_files depth global filePaths st with
  | (Rejected h, st) => (Returned h, set_current currentContext st)
  | (Unwound e, st) => (CxxThrown e, set_current currentContext st)
  | (_, st) =>
      let st := ClearFileAndDirectoryGlobals global st in
      (Returned (Some (VObj global)), set_current currentContext st)
  end.

End Loader.

Arguments IncludeScript : simpl never.
Arguments IncludeScriptWrapper : simpl never.

(** ** Properties stated by the specification *)

(** The identity globals of [global] read as [file] and [dir]. *)
Definition identity_is (global : ObjId) (file dir : Value) (st : State) : Prop :=
  ObjGet (heap st) global kFileNameGlobal = file /\
  ObjGet (heap st) global kDirNameGlobal = dir.

(** Both identity globals read as the absent marker. *)
Definition identity_absent (global : ObjId) (st : State) : Prop :=
  identity_is global VUndefined VUndefined st.

(** [P] holds at every point of the run of [s] from [st]: before each step
    of the script and when it finishes. *)
Fixpoint during (native : list Value -> State -> Handle * State)
    (P : State -> Prop) (s : Script) (st : State) : Prop :=
  P st /\
  match s with
  | SDone _ => True
  | SAct f k =>
      during native P k (set_heap (f (ctx_global (current st)) (heap st)) st)
  | SRead k => during native P (k (ctx_global (current st)) (heap st)) st
  | SInclude arguments k =>
      let '(h, st1) := native arguments st in
      match pending st1 with
      | Some e => during native P (k (Thrown e)) (set_pending None st1)
      | None => during native P (k (Normal (default VUndefined h))) st1
      end
  end.

(** A script that leaves the identity globals of [global] alone: it calls no
    [include], and none of its heap steps changes what they read as. *)
Fixpoint calm (global : ObjId) (s : Script) : Prop :=
  match s with
  | SDone _ => True
  | SAct f k =>
      (forall h, ObjGet (f global h) global kFileNameGlobal
                 = ObjGet h global kFileNameGlobal /\
                 ObjGet (f global h) global kDirNameGlobal
                 = ObjGet h global kDirNameGlobal) /\
      calm global k
  | SRead k => forall h, calm global (k global h)
  | SInclude _ _ => False
  end.

(** The state in which [IncludeScript] starts running the compiled file. *)
Definition run_entry (E : Engine) (path : string) (st : State) : State :=
  log (EvRun (ctx_global (current st)))
    (SetFileAndDirectoryGlobals E (ctx_global (current st)) path
       (log (EvCompile path) (log (EvRead path) st))).

(** How many times the identity globals of [global] were cleared in a log. *)
Definition count_clears (global : ObjId) (t : list Event) : nat :=
  length (filter (fun e => e = EvClearIdentity global) t).

(** The clears of the new context's identity globals that [Require] performs
    once its loop over the file list is over. *)
Definition clears_after_loop (E : Engine) (depth : nat)
    (nativeRequire loader : Value) (filePaths : list Value) (st : State) : nat :=
  let '(global, st0) := seed_context nativeRequire loader st in
  let '(_, st1) := load_files E depth global filePaths st0 in
  count_clears global
    (drop (length (trace st1))
       (trace (Require E depth nativeRequire loader filePaths st).2)).

(** [st'] comes after [st]: the same context is current and the log has only
    grown. *)
Definition evolves (st st' : State) : Prop :=
  current st' = current st /\ exists t, trace st' = trace st ++ t.

(** The bindings of the global object [Require] returns for an empty file
    list, in the order the code writes them: the seeded ones, the five copied
    from the caller's global object as they were in [h0], and the two identity
    globals the final clear leaves behind. *)
Definition composed_bindings (g exportsInstance host : ObjId)
    (nativeRequire loader : Value) (h0 : Heap) : list (string * Value) :=
  [ ("exports", VObj exportsInstance);
    ("global", VObj g);
    ("globals", VObj host);
    ("root", VObj host);
    ("MojoLoader", loader);
    ("require", nativeRequire);
    ("console", ObjGet h0 host "console");
    ("setTimeout", ObjGet h0 host "setTimeout");
    ("clearTimeout", ObjGet h0 host "clearTimeout");
    ("setInterval", ObjGet h0 host "setInterval");
    ("clearInterval", ObjGet h0 host "clearInterval");
    (kFileNameGlobal, VUndefined);
    (kDirNameGlobal, VUndefined) ].

(** While the new global object [g] is being seeded: it holds [m], the
    exports object [e] is empty, every other object is as in [h0]. *)
Definition seeding (h0 : Heap) (g e : ObjId) (m : Props) (st : State) : Prop :=
  heap st !! g = Some m /\
  heap st !! e = Some ∅ /\
  forall o, o <> g -> o <> e -> heap st !! o = h0 !! o.

(** ** The claims as the specification words them, where the code differs *)

(** The identity globals are those of the file at every point of its run,
    and absent once [IncludeScript] is back. *)
Definition identity_throughout_then_absent (E : Engine) (depth : nat)
    (path : string) (st : State) : Prop :=
  forall source script,
    createV8StringFromFile E path = Contents source ->
    Script_Compile E source path = Some script ->
    let g := ctx_global (current st) in
    during (native_include E depth)
      (identity_is g (VStr (system_complete E path))
         (VStr (parent_path E (system_complete E path))))
      script (run_entry E path st) /\
    identity_absent g (IncludeScript E depth (Some path) st).2.

(** The global object holds exactly: the exports namespace, the global
    object itself under two names, the caller's global object as [globals]
    and [root], the loader handle, [require], and four bindings copied from
    the caller's global object. *)
Definition exactly_seeded (props : Props) (g host : ObjId)
    (nativeRequire loader : Value) (hostProps : Props) : Prop :=
  exists exportsInstance self1 self2 loaderName c1 c2 c3 c4,
    let names := ["exports"; self1; self2; "globals"; "root"; loaderName;
                  "require"; c1; c2; c3; c4] in
    NoDup names /\
    dom props = list_to_set names /\
    props !! "exports" = Some (VObj exportsInstance) /\
    props !! self1 = Some (VObj g) /\
    props !! self2 = Some (VObj g) /\
    props !! "globals" = Some (VObj host) /\
    props !! "root" = Some (VObj host) /\
    props !! loaderName = Some loader /\
    props !! "require" = Some nativeRequire /\
    Forall (fun c => props !! c = Some (default VUndefined (hostProps !! c)))
      [c1; c2; c3; c4].

(** A failed compilation gives undefined with the failure flag set and
    nothing else: no error is left for the caller, no object is written. *)
Definition compile_failure_silent (E : Engine) (depth : nat) (path : string)
    (st : State) : Prop :=
  forall source,
    createV8StringFromFile E path = Contents source ->
    Script_Compile E source path = None ->
    (IncludeScript E depth (Some path) st).1
    = (Returned (Some VUndefined), true) /\
    pending (IncludeScript E depth (Some path) st).2 = pending st /\
    heap (IncludeScript E depth (Some path) st).2 = heap st.

(** However the loop of [Require] ends, the identity globals of the new
    context are cleared exactly once afterwards and read as absent when
    [Require] is left. *)
Definition cleared_once_on_return (E : Engine) (depth : nat)
    (nativeRequire loader : Value) (filePaths : list Value) (st : State) : Prop :=
  clears_after_loop E depth nativeRequire loader filePaths st = 1 /\
  identity_absent (seed_context nativeRequire loader st).1
    (Require E depth nativeRequire loader filePaths st).2.

(** ** A sample engine

    A file system of four files and the scripts they compile to, used to run
    the loader on concrete inputs. *)
Module Sample.

(** The text of a path before its last slash, if it has one. *)
Fixpoint before_last_slash (s : string) : option string :=
  match s with
  | EmptyString => None
  | String c rest =>
      match before_last_slash rest with
      | Some p => Some (String c p)
      | None => if Ascii.eqb c (Ascii.ascii_of_nat 47) then Some EmptyString else None
      end
  end.

Definition parent (s : string) : string :=
  match before_last_slash s with
  | Some EmptyString => "/"
  | Some p => p
  | None => EmptyString
  end.

Definition complete (p : string) : string :=
  if String.prefix "/" p then p else String.append "/home/" p.

(** [/a.js] includes [/b.js] and then completes with what [__filename]
    reads as. *)
Definition script_a : Script :=
  SInclude [VStr "/b.js"]
    (fun _ => SRead (fun g h => SDone (Normal (ObjGet h g kFileNameGlobal)))).

(** The doubles 1, 7, 42 and ten to the 21, as bits. *)
Definition double_1 : Z := 4607182418800017408.
Definition double_7 : Z := 4619567317775286272.
Definition double_42 : Z := 4631107791820423168.
Definition double_1e21 : Z := 4921056587992461136.

(** The text of those doubles; no other number is converted below. *)
Definition number_text (bits : Z) : string :=
  if decide (bits = double_1) then "1"
  else if decide (bits = double_7) then "7"
  else if decide (bits = double_42) then "42"
  else if decide (bits = double_1e21) then "1e+21"
  else "NaN".

(** [/b.js] sets [answer] on its global object and completes with 7. *)
Definition script_b : Script :=
  SAct (fun g h =>
          <[g := <["answer" := VNum double_42]> (default ∅ (h !! g))]> h)
    (SDone (Normal (VNum double_7))).

(** [/throw.js] throws. *)
Definition script_throw : Script := SDone (Thrown (VStr "boom")).

Definition files (path : string) : FileRead :=
  if decide (path = "/a.js") then Contents "include('/b.js'); __filename"
  else if decide (path = "/b.js") then Contents "answer = 42; 7"
  else if decide (path = "/throw.js") then Contents "throw 'boom'"
  else if decide (path = "/bad.js") then Contents "function ("
  else ReadFailure (StdException "No such file or directory").

Definition compile (source name : string) : option Script :=
  if decide (source = "include('/b.js'); __filename") then Some script_a
  else if decide (source = "answer = 42; 7") then Some script_b
  else if decide (source = "throw 'boom'") then Some script_throw
  else None.

(** The module was loaded in the caller's context, whose global object is
    object 0. *)
Definition engine : Engine :=
  MkEngine files compile complete parent (fun _ => Some "[object Object]")
    (fun source name => VError (String.append "SyntaxError: " name))
    number_text (MkContext 0 (VObj 0)).

(** A caller's context whose global object 0 has a [console] and a
    [setTimeout]; objects 3 and 4 are the [require] function and the loader
    handle passed to [Require]. *)
Definition host : State :=
  MkState {[ 0 := {[ "console" := VObj 1; "setTimeout" := VObj 2 ]};
             1 := ∅; 2 := ∅; 3 := ∅; 4 := ∅ ]}
    (MkContext 0 (VObj 0)) None [].

Definition nativeRequire : Value := VObj 3.
Definition loader : Value := VObj 4.

End Sample.

(** ** The boundary of [require] and the shape of the log *)

(** What the engine knows of a value besides its properties: whether it is a
    function, whether it is an array, and the elements [Length] and [Get]
    find in an array. *)
Record Shapes := MkShapes {
  IsFunction : Value -> bool;
  IsArray : Value -> bool;
  Elements : Value -> list Value
}.

(** [RequireWrapper].  It has no handler: a C++ exception that leaves
    [Require] leaves it too. *)
Definition RequireWrapper (E : Engine) (K : Shapes) (depth : nat)
    (arguments : list Value) (st : State) : Outcome * State :=
  match arguments with
  | [argument0; argument1; argument2] =>
      if negb (IsFunction K argument0) then
        let '(h, st) := ThrowException (Exception_Error
          "Argument 2 must be an function.") st in
        (Returned h, st)
      else if negb (IsArray K argument2) then
        let '(h, st) := ThrowException (Exception_Error
          "Argument 3 must be an array.") st in
        (Returned h, st)
      else
        let fileList := Elements K argument2 in
        Require E depth argument0 argument1 fileList st
  | _ =>
      let '(h, st) := ThrowException (Exception_Error
        "Invalid number of parameters, 3 expected.") st in
      (Returned h, st)
  end.

Definition is_set (e : Event) : bool :=
  match e with EvSetIdentity _ _ => true | _ => false end.

Definition is_clear (e : Event) : bool :=
  match e with EvClearIdentity _ => true | _ => false end.

(** How many events of a log satisfy [p]. *)
Definition count_events (p : Event -> bool) (t : list Event) : nat :=
  length (filter (fun e => p e = true) t).

(** An event that names a global object names [g] or [home]. *)
Definition concerns (g home : ObjId) (e : Event) : Prop :=
  match e with
  | EvSetIdentity g' _ | EvRun g' | EvClearIdentity g' => g' = g \/ g' = home
  | EvRead _ | EvCompile _ => True
  end.

(** A stretch of log in which everything happened to the global objects [g]
    and [home] and every set of the identity globals has its clear. *)
Definition tidy (g home : ObjId) (t : list Event) : Prop :=
  Forall (concerns g home) t /\
  count_events is_set t = count_events is_clear t.

(** [st'] comes after [st] by a tidy stretch of log, in the same context. *)
Definition grows (g home : ObjId) (st st' : State) : Prop :=
  current st' = current st /\
  exists t, trace st' = trace st ++ t /\ tidy g home t.

(** The calls [RequireWrapper] hands on to [Require]. *)
Definition accepts (K : Shapes) (arguments : list Value) : bool :=
  match arguments with
  | [argument0; _; argument2] => IsFunction K argument0 && IsArray K argument2
  | _ => false
  end.

(** A caller's heap with an array, object 7, holding [fileList]; object 3 is
    the only function. *)
Module SampleCall.

Definition host : State :=
  set_heap (<[7 := ∅]> (heap Sample.host)) Sample.host.

Definition shapes (fileList : list Value) : Shapes :=
  MkShapes (fun v => bool_decide (v = VObj 3))
           (fun v => bool_decide (v = VObj 7))
           (fun _ => fileList).

End SampleCall.

(** ** Basic facts about the engine primitives *)

Section Facts.

Variable E : Engine.

Lemma ObjGet_ObjSet_eq o name v st :
  ObjGet (heap (ObjSet o name v st)) o name = v.
Proof. unfold ObjGet, ObjSet. simpl. by rewrite lookup_insert_eq; simpl; rewrite lookup_insert_eq. Qed.

Lemma ObjGet_ObjSet_ne o name v st o' name' :
  (o', name') <> (o, name) ->
  ObjGet (heap (ObjSet o name v st)) o' name' = ObjGet (heap st) o' name'.
Proof.
  intros Hne. unfold ObjGet, ObjSet. simpl.
  destruct (decide (o = o')) as [->|Ho].
  - rewrite lookup_insert_eq. simpl.
    rewrite lookup_insert_ne by congruence.
    by destruct (heap st !! o').
  - by rewrite lookup_insert_ne.
Qed.

Lemma ObjSet_lookup_eq o name v st :
  heap (ObjSet o name v st) !! o = Some (<[name := v]> (default ∅ (heap st !! o))).
Proof. unfold ObjSet. simpl. by rewrite lookup_insert_eq. Qed.

Lemma ObjSet_lookup_ne o name v st o' :
  o' <> o -> heap (ObjSet o name v st) !! o' = heap st !! o'.
Proof. intros. unfold ObjSet. simpl. by rewrite lookup_insert_ne. Qed.

Lemma set_identity_is g path st :
  identity_is g (VStr (system_complete E path))
    (VStr (parent_path E (system_complete E path)))
    (SetFileAndDirectoryGlobals E g path st).
Proof.
  unfold SetFileAndDirectoryGlobals. split.
  - rewrite ObjGet_ObjSet_ne by (unfold kFileNameGlobal, kDirNameGlobal; congruence).
    apply ObjGet_ObjSet_eq.
  - apply ObjGet_ObjSet_eq.
Qed.

Lemma clear_identity_absent g st :
  identity_absent g (ClearFileAndDirectoryGlobals g st).
Proof.
  unfold ClearFileAndDirectoryGlobals. split.
  - rewrite ObjGet_ObjSet_ne by (unfold kFileNameGlobal, kDirNameGlobal; congruence).
    apply ObjGet_ObjSet_eq.
  - apply ObjGet_ObjSet_eq.
Qed.

Lemma clear_identity_lookup_eq g st :
  heap (ClearFileAndDirectoryGlobals g st) !! g
  = Some (<[kDirNameGlobal := VUndefined]>
            (<[kFileNameGlobal := VUndefined]> (default ∅ (heap st !! g)))).
Proof.
  unfold ClearFileAndDirectoryGlobals.
  by rewrite ObjSet_lookup_eq, ObjSet_lookup_eq.
Qed.

Lemma clear_identity_lookup_ne g st o :
  o <> g -> heap (ClearFileAndDirectoryGlobals g st) !! o = heap st !! o.
Proof.
  intros Hne. unfold ClearFileAndDirectoryGlobals.
  by rewrite !ObjSet_lookup_ne.
Qed.

(** Clearing touches the two identity globals only. *)
Lemma clear_identity_frame g st o name :
  (o, name) <> (g, kFileNameGlobal) -> (o, name) <> (g, kDirNameGlobal) ->
  ObjGet (heap (ClearFileAndDirectoryGlobals g st)) o name
  = ObjGet (heap st) o name.
Proof.
  intros H1 H2. unfold ClearFileAndDirectoryGlobals.
  rewrite !ObjGet_ObjSet_ne by done. done.
Qed.

Lemma evolves_refl st : evolves st st.
Proof. split; [done | exists []; by rewrite app_nil_r]. Qed.

Lemma evolves_trans st1 st2 st3 :
  evolves st1 st2 -> evolves st2 st3 -> evolves st1 st3.
Proof.
  intros [Hc1 [t1 Ht1]] [Hc2 [t2 Ht2]]. split; [congruence |].
  exists (t1 ++ t2). by rewrite Ht2, Ht1, app_assoc.
Qed.

Lemma evolves_set_heap h st : evolves st (set_heap h st).
Proof. split; [done | exists []; simpl; by rewrite app_nil_r]. Qed.

Lemma evolves_set_pending p st : evolves st (set_pending p st).
Proof. split; [done | exists []; simpl; by rewrite app_nil_r]. Qed.

Lemma evolves_log e st : evolves st (log e st).
Proof. split; [done | by exists [e]]. Qed.

Lemma evolves_ObjSet o name v st : evolves st (ObjSet o name v st).
Proof. apply evolves_set_heap. Qed.

Lemma evolves_set_identity g path st :
  evolves st (SetFileAndDirectoryGlobals E g path st).
Proof.
  unfold SetFileAndDirectoryGlobals.
  eapply evolves_trans; [apply evolves_log |].
  eapply evolves_trans; apply evolves_ObjSet.
Qed.

Lemma evolves_clear_identity g st :
  evolves st (ClearFileAndDirectoryGlobals g st).
Proof.
  unfold ClearFileAndDirectoryGlobals.
  eapply evolves_trans; [apply evolves_log |].
  eapply evolves_trans; apply evolves_ObjSet.
Qed.

Lemma evolves_throw e st : evolves st (ThrowException e st).2.
Proof. apply evolves_set_pending. Qed.

Create HintDb evolve.

#[local] Hint Resolve evolves_refl evolves_set_heap evolves_set_pending
  evolves_log evolves_ObjSet evolves_set_identity evolves_clear_identity
  evolves_throw : evolve.

Section Native.

Variable native : list Value -> State -> Handle * State.
Hypothesis native_evolves : forall arguments st, evolves st (native arguments st).2.

Lemma RunScript_evolves s st : evolves st (RunScript native s st).2.
Proof.
  revert st. induction s as [c | f k IH | k IH | arguments k IH]; intros st; simpl.
  - apply evolves_refl.
  - eapply evolves_trans; [apply evolves_set_heap | apply IH].
  - apply IH.
  - pose proof (native_evolves arguments st) as Hn.
    destruct (native arguments st) as [h st1]. simpl in Hn.
    destruct (pending st1).
    + eapply evolves_trans; [exact Hn |].
      eapply evolves_trans; [apply evolves_set_pending | apply IH].
    + eapply evolves_trans; [exact Hn | apply IH].
Qed.

Lemma Script_Run_evolves s st : evolves st (Script_Run native s st).2.
Proof.
  unfold Script_Run.
  pose proof (RunScript_evolves s (log (EvRun (ctx_global (current st))) st)) as Hr.
  destruct (RunScript native s _) as [[v | e] st']; simpl in *.
  - eapply evolves_trans; [apply evolves_log | exact Hr].
  - eapply evolves_trans; [apply evolves_log |].
    eapply evolves_trans; [exact Hr | apply evolves_set_pending].
Qed.

Lemma IncludeScript_in_evolves p st :
  evolves st (IncludeScript_in E native p st).2.
Proof.
  unfold IncludeScript_in.
  destruct p as [[| a path] |]; simpl; auto with evolve.
  destruct (createV8StringFromFile E _); simpl; auto with evolve.
  destruct (Script_Compile E _ _) as [script |]; simpl.
  2: { eapply evolves_trans; apply evolves_log. }
  match goal with |- context [Script_Run native script ?s0] =>
    pose proof (Script_Run_evolves script s0) as Hr;
    destruct (Script_Run native script s0) as [r st'] end.
  simpl in Hr.
  assert (evolves st (ClearFileAndDirectoryGlobals
            (ctx_global (current st)) st')) as Hev.
  { eapply evolves_trans; [| apply evolves_clear_identity].
    eapply evolves_trans; [| exact Hr].
    eapply evolves_trans; [apply evolves_log |].
    eapply evolves_trans; [apply evolves_log | apply evolves_set_identity]. }
  by destruct (IsEmpty r).
Qed.

Lemma IncludeScriptWrapper_in_evolves arguments st :
  evolves st (IncludeScriptWrapper_in E native arguments st).2.
Proof.
  unfold IncludeScriptWrapper_in.
  destruct arguments as [| a [| b rest]]; auto with evolve.
  pose proof (IncludeScript_in_evolves (c_str <$> Utf8Value E a) st) as Hi.
  destruct (IncludeScript_in E native _ st) as [[[h | [what |]] b] st']; simpl in *.
  - exact Hi.
  - eapply evolves_trans; [exact Hi | apply evolves_set_pending].
  - eapply evolves_trans; [exact Hi | apply evolves_set_pending].
Qed.

End Native.

Lemma native_include_evolves depth arguments st :
  evolves st (native_include E depth arguments st).2.
Proof.
  revert arguments st. induction depth as [| d IH]; intros arguments st.
  - apply evolves_set_pending.
  - simpl.
    pose proof (IncludeScriptWrapper_in_evolves _ IH arguments
                  (set_current (ModuleContext E) st)) as [_ [t Ht]].
    destruct (IncludeScriptWrapper_in E _ arguments _) as [h st'].
    split; [done |]. by exists t.
Qed.

Lemma IncludeScript_evolves depth p st :
  evolves st (IncludeScript E depth p st).2.
Proof. apply IncludeScript_in_evolves, native_include_evolves. Qed.

End Facts.

(** ** The script loader: [IncludeScript] and its wrapper *)

Section Include.

Variable E : Engine.

(** [IncludeScript] on a file that is read and compiled: the file runs from
    [run_entry], and the identity globals are cleared in the state the run
    leaves. *)
Lemma IncludeScript_run depth path st source script :
  path <> EmptyString ->
  createV8StringFromFile E path = Contents source ->
  Script_Compile E source path = Some script ->
  IncludeScript E depth (Some path) st =
    match RunScript (native_include E depth) script (run_entry E path st) with
    | (Normal v, st2) =>
        (Returned (Some v), false,
         ClearFileAndDirectoryGlobals (ctx_global (current st)) st2)
    | (Thrown e, st2) =>
        (Returned None, true,
         ClearFileAndDirectoryGlobals (ctx_global (current st))
           (set_pending (Some e) st2))
    end.
Proof.
  intros Hne Hread Hcomp. unfold IncludeScript, IncludeScript_in.
  destruct path as [| a path]; [done |].
  rewrite Hread, Hcomp. unfold Script_Run, run_entry. simpl.
  by destruct (RunScript _ script _) as [[v | e] st2].
Qed.

Lemma IncludeScript_read_failure depth path st e :
  path <> EmptyString ->
  createV8StringFromFile E path = ReadFailure e ->
  IncludeScript E depth (Some path) st = (CxxThrown e, true, log (EvRead path) st).
Proof.
  intros Hne Hread. unfold IncludeScript, IncludeScript_in.
  destruct path as [| a path]; [done |]. by rewrite Hread.
Qed.

Lemma IncludeScript_compile_failure depth path st source :
  path <> EmptyString ->
  createV8StringFromFile E path = Contents source ->
  Script_Compile E source path = None ->
  IncludeScript E depth (Some path) st
  = (Returned (Some VUndefined), true,
     set_pending (Some (CompileError E source path))
       (log (EvCompile path) (log (EvRead path) st))).
Proof.
  intros Hne Hread Hcomp. unfold IncludeScript, IncludeScript_in.
  destruct path as [| a path]; [done |]. by rewrite Hread, Hcomp.
Qed.

(** A calm script sees the identity globals it was started with all along. *)
Lemma calm_during native g file dir s st :
  ctx_global (current st) = g ->
  calm g s ->
  identity_is g file dir st ->
  during native (identity_is g file dir) s st.
Proof.
  revert st. induction s as [c | f k IH | k IH | arguments k IH];
    intros st Hg Hcalm Hid; simpl in *.
  - done.
  - destruct Hcalm as [Hf Hk]. split; [done |]. apply IH; [done | done |].
    rewrite Hg. destruct Hid as [Hid1 Hid2], (Hf (heap st)) as [Hf1 Hf2].
    split; simpl; congruence.
  - split; [done |]. rewrite Hg. by apply IH.
  - done.
Qed.

Lemma IncludeScriptWrapper_unfold depth argument st :
  IncludeScriptWrapper E depth [argument] st =
    match IncludeScript E depth (c_str <$> Utf8Value E argument) st with
    | (Returned h, _, st') => (h, st')
    | (CxxThrown (StdException what), _, st') =>
        ThrowException (Exception_Error what) st'
    | (CxxThrown UnknownException, _, st') =>
        ThrowException (Exception_Error
          "Native function threw an unknown exception.") st'
    end.
Proof. reflexivity. Qed.

(** With a non-empty path the first thing [IncludeScript] does is read the
    file. *)
Lemma IncludeScript_reads_first depth path st :
  path <> EmptyString ->
  evolves (log (EvRead path) st) (IncludeScript E depth (Some path) st).2.
Proof.
  intros Hne. unfold IncludeScript, IncludeScript_in.
  destruct path as [| a path]; [done |].
  destruct (createV8StringFromFile E _); simpl; [| apply evolves_refl].
  destruct (Script_Compile E _ _) as [script |]; simpl; [| apply evolves_log].
  match goal with |- context [Script_Run ?n script ?s0] =>
    pose proof (Script_Run_evolves n (native_include_evolves E depth) script s0) as Hr;
    destruct (Script_Run n script s0) as [r st'] end.
  simpl in Hr.
  assert (evolves (log (EvRead (String a path)) st)
            (ClearFileAndDirectoryGlobals (ctx_global (current st)) st')) as Hev.
  { eapply evolves_trans; [| apply evolves_clear_identity].
    eapply evolves_trans; [| exact Hr].
    eapply evolves_trans; [apply evolves_log | apply evolves_set_identity]. }
  by destruct (IsEmpty r).
Qed.


End Include.

(** ** The context composer: [Require] *)

Section Compose.

Variable E : Engine.

Lemma seeding_ObjSet h0 g e m st name v :
  g <> e ->
  seeding h0 g e m st ->
  seeding h0 g e (<[name := v]> m) (ObjSet g name v st).
Proof.
  intros Hge (Hg & He & Hother). repeat split.
  - by rewrite ObjSet_lookup_eq, Hg.
  - by rewrite ObjSet_lookup_ne.
  - intros o Hog Hoe. rewrite ObjSet_lookup_ne by done. by apply Hother.
Qed.

Lemma seeding_CopyProperty h0 g e m st host name :
  g <> e -> h0 !! g = None -> h0 !! e = None ->
  m !! name = None ->
  seeding h0 g e m st ->
  seeding h0 g e (<[name := ObjGet h0 host name]> m)
    (CopyProperty host g name st).
Proof.
  intros Hge Hfg Hfe Hm Hs. unfold CopyProperty.
  assert (ObjGet (heap st) host name = ObjGet h0 host name) as ->.
  { destruct Hs as (Hg & He & Hother). unfold ObjGet.
    destruct (decide (host = g)) as [-> | Hhg].
    - rewrite Hg, Hfg. simpl. by rewrite Hm.
    - destruct (decide (host = e)) as [-> | Hhe].
      + rewrite He, Hfe. simpl. by rewrite lookup_empty.
      + by rewrite Hother. }
  by apply seeding_ObjSet.
Qed.

(** What [seed_context] builds. *)
Lemma seed_context_spec nativeRequire loader st :
  exists g e st0,
    seed_context nativeRequire loader st = (g, st0) /\
    heap st !! g = None /\ heap st !! e = None /\ g <> e /\
    current st0 = MkContext g (ctx_token (current st)) /\
    pending st0 = pending st /\ trace st0 = trace st /\
    seeding (heap st) g e
      (list_to_map (take 11 (composed_bindings g e (ctx_global (current st))
                               nativeRequire loader (heap st)))) st0.
Proof.
  set (h0 := heap st). set (host := ctx_global (current st)).
  set (g := fresh (dom h0)).
  set (e := fresh (dom (<[g := ∅]> h0))).
  assert (h0 !! g = None) as Hfg.
  { apply not_elem_of_dom. apply is_fresh. }
  assert (<[g := ∅]> h0 !! e = None) as Hfe'.
  { apply not_elem_of_dom. apply is_fresh. }
  assert (g <> e) as Hge.
  { intros Heq. rewrite <- Heq, lookup_insert_eq in Hfe'. done. }
  assert (h0 !! e = None) as Hfe.
  { by rewrite lookup_insert_ne in Hfe'. }
  exists g, e. eexists. split; [reflexivity |].
  do 3 (split; [done |]). split; [done |]. split; [done |]. split; [done |].
  assert (seeding h0 g e ∅
            (set_heap (<[e := ∅]> (<[g := ∅]> h0))
               (set_current (MkContext g (ctx_token (current st))) st))) as S0.
  { repeat split; simpl.
    - rewrite lookup_insert_ne by done. by rewrite lookup_insert_eq.
    - by rewrite lookup_insert_eq.
    - intros o Hog Hoe. by rewrite !lookup_insert_ne. }
  pose proof (seeding_ObjSet _ _ _ _ _ "exports" (VObj e) Hge S0) as S1.
  pose proof (seeding_ObjSet _ _ _ _ _ "global" (VObj g) Hge S1) as S2.
  pose proof (seeding_ObjSet _ _ _ _ _ "globals" (VObj host) Hge S2) as S3.
  pose proof (seeding_ObjSet _ _ _ _ _ "root" (VObj host) Hge S3) as S4.
  pose proof (seeding_ObjSet _ _ _ _ _ "MojoLoader" loader Hge S4) as S5.
  pose proof (seeding_ObjSet _ _ _ _ _ "require" nativeRequire Hge S5) as S6.
  apply (seeding_CopyProperty _ _ _ _ _ host "console" Hge Hfg Hfe) in S6 as S7;
    [| by simplify_map_eq].
  apply (seeding_CopyProperty _ _ _ _ _ host "setTimeout" Hge Hfg Hfe) in S7 as S8;
    [| by simplify_map_eq].
  apply (seeding_CopyProperty _ _ _ _ _ host "clearTimeout" Hge Hfg Hfe) in S8 as S9;
    [| by simplify_map_eq].
  apply (seeding_CopyProperty _ _ _ _ _ host "setInterval" Hge Hfg Hfe) in S9 as S10;
    [| by simplify_map_eq].
  apply (seeding_CopyProperty _ _ _ _ _ host "clearInterval" Hge Hfg Hfe) in S10 as S11;
    [| by simplify_map_eq].
  exact S11.
Qed.

Lemma seed_context_absent nativeRequire loader st g st0 :
  seed_context nativeRequire loader st = (g, st0) ->
  ctx_global (current st0) = g /\ identity_absent g st0.
Proof.
  intros Hseed.
  destruct (seed_context_spec nativeRequire loader st)
    as (g' & e & st0' & Hseed' & _ & _ & _ & Hcur & _ & _ & Hg & _).
  rewrite Hseed in Hseed'. injection Hseed' as <- <-.
  split; [by rewrite Hcur |].
  split; unfold ObjGet; rewrite Hg; simpl; by simplify_map_eq.
Qed.

Lemma Require_unfold depth nativeRequire loader filePaths st g st0 :
  seed_context nativeRequire loader st = (g, st0) ->
  Require E depth nativeRequire loader filePaths st =
    match load_files E depth g filePaths st0 with
    | (Rejected h, st1) => (Returned h, set_current (current st) st1)
    | (Unwound e, st1) => (CxxThrown e, set_current (current st) st1)
    | (_, st1) =>
        (Returned (Some (VObj g)),
         set_current (current st) (ClearFileAndDirectoryGlobals g st1))
    end.
Proof. intros Hseed. unfold Require. by rewrite Hseed. Qed.

(** The loop over a list in two parts: the second part is reached only if
    the first ran to its end. *)
Lemma load_files_app depth g before after st :
  load_files E depth g (before ++ after) st =
    match load_files E depth g before st with
    | (Completed, st1) => load_files E depth g after st1
    | r => r
    end.
Proof.
  revert st. induction before as [| v before IH]; intros st; simpl.
  - done.
  - destruct v; simpl; try done.
    by destruct (IncludeScript E depth _ _) as [[[h | e] [|]] st1].
Qed.

Lemma load_files_evolves depth g filePaths st :
  evolves st (load_files E depth g filePaths st).2.
Proof.
  revert st. induction filePaths as [| v rest IH]; intros st; simpl.
  - apply evolves_refl.
  - destruct v; simpl; try apply evolves_set_pending.
    match goal with |- context [IncludeScript E depth ?p ?s0] =>
      pose proof (IncludeScript_evolves E depth p s0) as Hi;
      destruct (IncludeScript E depth p s0) as [[[h | e] [|]] st1] end;
      simpl in *.
    all: try (eapply evolves_trans; [apply evolves_set_identity | exact Hi]).
    eapply evolves_trans; [| apply IH].
    eapply evolves_trans; [apply evolves_set_identity | exact Hi].
Qed.

(** A load that reports no failure went through the clear that follows the
    run. *)
Lemma IncludeScript_ok_absent depth p st o st' :
  IncludeScript E depth p st = (o, false, st') ->
  identity_absent (ctx_global (current st)) st'.
Proof.
  unfold IncludeScript, IncludeScript_in.
  destruct p as [[| a path] |]; simpl; try done.
  destruct (createV8StringFromFile E _); simpl; try done.
  destruct (Script_Compile E _ _) as [script |]; simpl; try done.
  destruct (Script_Run _ script _) as [[v |] st2]; simpl; try done.
  intros [= <- <-]. apply clear_identity_absent.
Qed.

(** Between two iterations of the loop, and when the loop is left otherwise
    than by a failed load, the identity globals of the new global object read
    as absent. *)
Lemma load_files_absent depth g filePaths st :
  ctx_global (current st) = g ->
  identity_absent g st ->
  match load_files E depth g filePaths st with
  | (Completed, st') | (Rejected _, st') => identity_absent g st'
  | _ => True
  end.
Proof.
  revert st. induction filePaths as [| v rest IH]; intros st Hcur Habs; simpl.
  - done.
  - destruct v; simpl; try done.
    match goal with |- context [IncludeScript E depth ?p ?s0] =>
      pose proof (IncludeScript_evolves E depth p s0) as [Hc _];
      pose proof (IncludeScript_ok_absent depth p s0) as Hok;
      destruct (IncludeScript E depth p s0) as [[[h | e] [|]] st1] end;
      simpl in *; try done.
    apply IH.
    + by rewrite Hc.
    + specialize (Hok _ _ eq_refl). by rewrite Hcur in Hok.
Qed.

End Compose.

(** ** The claims *)

Section Claims.

Variable E : Engine.

(** C1, as amended.  When [include] runs a file it has read and compiled, the
    run starts in a state whose identity globals are the resolved path of the
    file and its parent directory; they stay so at every point of the run of
    a file that neither calls [include] itself nor assigns them; what
    [IncludeScript] returns is the outcome of that very run, in the state the
    run left with the identity globals cleared; so, whether the run finishes
    or throws, both read as the absent marker in the state [IncludeScript]
    returns. *)
Theorem C1_identity_set_then_cleared depth path st source script :
  path <> EmptyString ->
  createV8StringFromFile E path = Contents source ->
  Script_Compile E source path = Some script ->
  let g := ctx_global (current st) in
  let file := VStr (system_complete E path) in
  let dir := VStr (parent_path E (system_complete E path)) in
  identity_is g file dir (run_entry E path st) /\
  (calm g script ->
   during (native_include E depth) (identity_is g file dir) script
     (run_entry E path st)) /\
  IncludeScript E depth (Some path) st =
    match RunScript (native_include E depth) script (run_entry E path st) with
    | (Normal v, st2) =>
        (Returned (Some v), false, ClearFileAndDirectoryGlobals g st2)
    | (Thrown e, st2) =>
        (Returned None, true,
         ClearFileAndDirectoryGlobals g (set_pending (Some e) st2))
    end /\
  identity_absent g (IncludeScript E depth (Some path) st).2.
Proof.
  intros Hne Hread Hcomp g file dir.
  assert (identity_is g file dir (run_entry E path st)) as Hentry.
  { unfold run_entry. apply set_identity_is. }
  split; [exact Hentry |]. split; [| split].
  - intros Hcalm. by apply calm_during.
  - by apply (IncludeScript_run E depth path st source script).
  - rewrite (IncludeScript_run E depth path st source script) by done.
    destruct (RunScript _ script _) as [[v | e] st2];
      apply clear_identity_absent.
Qed.

(** C2, as amended.  [Require] with an empty file list returns a fresh global
    object whose bindings are exactly those of [composed_bindings]: a fresh
    empty exports object, the global object itself under the one name
    [global], the caller's global object under [globals] and [root], the
    loader handle under [MojoLoader], [nativeRequire] under [require], the
    five names [console], [setTimeout], [clearTimeout], [setInterval] and
    [clearInterval] with the values the caller's global object had for them,
    and the two identity globals bound to the absent marker. *)
Theorem C2_empty_list_bindings depth nativeRequire loader st :
  exists g e,
    (Require E depth nativeRequire loader [] st).1 = Returned (Some (VObj g)) /\
    heap st !! g = None /\ heap st !! e = None /\ g <> e /\
    heap (Require E depth nativeRequire loader [] st).2 !! e = Some ∅ /\
    heap (Require E depth nativeRequire loader [] st).2 !! g
    = Some (list_to_map (composed_bindings g e (ctx_global (current st))
                           nativeRequire loader (heap st))).
Proof.
  destruct (seed_context_spec nativeRequire loader st)
    as (g & e & st0 & Hseed & Hfg & Hfe & Hge & _ & _ & _ & Hg & He & _).
  exists g, e. rewrite (Require_unfold E depth _ _ _ _ _ _ Hseed).
  change (load_files E depth g [] st0) with (Completed, st0).
  cbn [fst snd]. do 4 (split; [done |]).
  change (heap (set_current ?c ?s)) with (heap s). split.
  - by rewrite clear_identity_lookup_ne.
  - rewrite clear_identity_lookup_eq, Hg. reflexivity.
Qed.

(** C3.  Let the loop of [Require] have run over the files [before] without a
    failure, and let the load of the next file, the list element [s] whose C
    string is [path], report a failure.  Then the files [after] it play no
    part: the loop ends in the state that load left, which comes from the
    state the files [before] produced, and [Require] does to the whole list
    exactly what it does to the list cut after that element. *)
Theorem C3_fail_fast depth nativeRequire loader before s path after
    st g st0 st1 o st2 :
  c_str s = path ->
  seed_context nativeRequire loader st = (g, st0) ->
  load_files E depth g before st0 = (Completed, st1) ->
  IncludeScript E depth (Some path) (SetFileAndDirectoryGlobals E g path st1)
  = (o, true, st2) ->
  load_files E depth g (before ++ VStr s :: after) st0
  = (match o with Returned _ => Broke | CxxThrown e => Unwound e end, st2) /\
  evolves st1 st2 /\
  Require E depth nativeRequire loader (before ++ VStr s :: after) st
  = Require E depth nativeRequire loader (before ++ [VStr s]) st.
Proof.
  intros Hs Hseed Hbefore Hload.
  assert (forall rest, load_files E depth g (before ++ VStr s :: rest) st0
            = (match o with Returned _ => Broke | CxxThrown e => Unwound e end,
               st2)) as Hloop.
  { intros rest. rewrite load_files_app, Hbefore. simpl. rewrite Hs, Hload.
    by destruct o. }
  split; [apply Hloop |]. split.
  - eapply evolves_trans; [apply (evolves_set_identity E g path) |].
    pose proof (IncludeScript_evolves E depth (Some path)
                  (SetFileAndDirectoryGlobals E g path st1)) as Hev.
    by rewrite Hload in Hev.
  - by rewrite !(Require_unfold E depth _ _ _ _ _ _ Hseed), (Hloop after), (Hloop []).
Qed.

(** C4.  When the run of the compiled file throws [e], [IncludeScript]
    returns an empty handle with the failure flag set and [e] scheduled, its
    wrapper, called with a string [s] whose C string is the path, returns
    the same, and a [Require] whose loop reached that file returns with [e]
    still scheduled; when the run completes with [v], the flag is clear and
    [v] is the value returned. *)
Theorem C4_runtime_exception_propagates depth s path st source script c st2 :
  c_str s = path ->
  path <> EmptyString ->
  createV8StringFromFile E path = Contents source ->
  Script_Compile E source path = Some script ->
  RunScript (native_include E depth) script (run_entry E path st) = (c, st2) ->
  match c with
  | Thrown e =>
      exists st',
        IncludeScript E depth (Some path) st = (Returned None, true, st') /\
        pending st' = Some e /\
        IncludeScriptWrapper E depth [VStr s] st = (None, st') /\
        forall nativeRequire loader before after st_caller g st0 st1,
          seed_context nativeRequire loader st_caller = (g, st0) ->
          load_files E depth g before st0 = (Completed, st1) ->
          SetFileAndDirectoryGlobals E g path st1 = st ->
          pending (Require E depth nativeRequire loader
                     (before ++ VStr s :: after) st_caller).2 = Some e
  | Normal v =>
      exists st',
        IncludeScript E depth (Some path) st = (Returned (Some v), false, st') /\
        IncludeScriptWrapper E depth [VStr s] st = (Some v, st') /\
        pending st' = pending st2
  end.
Proof.
  intros Hs Hne Hread Hcomp Hrun.
  pose proof (IncludeScript_run E depth path st source script Hne Hread Hcomp)
    as Hinc.
  rewrite Hrun in Hinc. destruct c as [v | e].
  - eexists. split; [exact Hinc |]. split; [| done].
    rewrite IncludeScriptWrapper_unfold. simpl. by rewrite Hs, Hinc.
  - eexists. split; [exact Hinc |]. split; [done |]. split.
    + rewrite IncludeScriptWrapper_unfold. simpl. by rewrite Hs, Hinc.
    + intros nativeRequire loader before after st_caller g st0 st1
        Hseed Hbefore Hst.
      rewrite (Require_unfold E depth _ _ _ _ _ _ Hseed).
      rewrite load_files_app, Hbefore. simpl. rewrite Hs, Hst, Hinc. done.
Qed.

(** C5, as amended.  When the loop of [Require] runs over the whole list or
    stops at a load that returned with the failure flag set, the identity
    globals of the new context are cleared exactly once afterwards and
    [Require] returns the new global object.  When the loop meets an element
    that is not a string, [Require] returns at once with the error scheduled
    and clears nothing.  In both cases the identity globals of the new
    global object read as absent in the state [Require] returns in.  When a
    C++ exception leaves the load instead, it leaves [Require] too and
    nothing is cleared. *)
Theorem C5_clear_after_loop depth nativeRequire loader filePaths st :
  let g := (seed_context nativeRequire loader st).1 in
  let st0 := (seed_context nativeRequire loader st).2 in
  let result := Require E depth nativeRequire loader filePaths st in
  let clears := clears_after_loop E depth nativeRequire loader filePaths st in
  match (load_files E depth g filePaths st0).1 with
  | Completed | Broke =>
      clears = 1 /\ identity_absent g result.2 /\
      result.1 = Returned (Some (VObj g))
  | Rejected h =>
      clears = 0 /\ identity_absent g result.2 /\
      result.1 = Returned h /\
      pending result.2 = Some (Exception_Error
        "All elements of file paths array must be strings.")
  | Unwound e => clears = 0 /\ result.1 = CxxThrown e
  end.
Proof.
  intros g st0 result clears. subst result clears.
  unfold clears_after_loop.
  destruct (seed_context nativeRequire loader st) as [g' st0'] eqn:Hseed.
  simpl in g, st0. subst g st0.
  rewrite (Require_unfold E depth _ _ _ _ _ _ Hseed).
  destruct (seed_context_absent _ _ _ _ _ Hseed) as [Hcur Habs].
  pose proof (load_files_absent E depth g' filePaths st0' Hcur Habs) as Hloop.
  assert (forall st1, count_clears g'
            (drop (length (trace st1))
               (trace (set_current (current st)
                         (ClearFileAndDirectoryGlobals g' st1)))) = 1) as Hone.
  { intros st1.
    change (trace (set_current (current st)
                     (ClearFileAndDirectoryGlobals g' st1)))
      with (trace st1 ++ [EvClearIdentity g']).
    rewrite drop_app_length. unfold count_clears.
    by rewrite filter_cons_True. }
  assert (forall st1, count_clears g'
            (drop (length (trace st1))
               (trace (set_current (current st) st1))) = 0) as Hzero.
  { intros st1. simpl. by rewrite drop_all. }
  assert (forall st1, identity_absent g'
            (set_current (current st)
               (ClearFileAndDirectoryGlobals g' st1))) as Hclear.
  { intros st1. apply (clear_identity_absent g' st1). }
  destruct (load_files E depth g' filePaths st0') as [[| | h | e] st1] eqn:Hl;
    cbn [fst snd].
  - done.
  - done.
  - split; [apply Hzero |]. split; [exact Hloop |]. split; [done |].
    clear -Hl. revert st0' Hl.
    induction filePaths as [| v rest IH]; intros st0' Hl; simpl in Hl;
      [done |].
    destruct v; try by injection Hl as <- <-.
    destruct (IncludeScript E depth _ _) as [[[h' | e] [|]] st2]; try done.
    by apply (IH st2).
  - done.
Qed.

(** When the loop of [Require] is left by its [break], [Require] returns the
    new context's global object, and apart from the two identity globals it
    clears, every property of every object is as the loop left it. *)
Lemma Require_returns_global_after_break depth nativeRequire loader filePaths
    st g st0 st1 :
  seed_context nativeRequire loader st = (g, st0) ->
  load_files E depth g filePaths st0 = (Broke, st1) ->
  Require E depth nativeRequire loader filePaths st
  = (Returned (Some (VObj g)),
     set_current (current st) (ClearFileAndDirectoryGlobals g st1)) /\
  forall o name,
    (o, name) <> (g, kFileNameGlobal) -> (o, name) <> (g, kDirNameGlobal) ->
    ObjGet (heap (Require E depth nativeRequire loader filePaths st).2) o name
    = ObjGet (heap st1) o name.
Proof.
  intros Hseed Hloop.
  rewrite (Require_unfold E depth _ _ _ _ _ _ Hseed), Hloop.
  split; [done |]. intros o name H1 H2.
  by apply clear_identity_frame.
Qed.

(** C7, as amended.  When the compilation of the source fails,
    [IncludeScript] returns undefined with the failure flag set, and so does
    its wrapper called with a string whose C string is the path; it has read
    and tried to compile the file and written to no object, so the identity
    globals are as before; it raises no error of its own, but the syntax
    error the engine scheduled while compiling is still scheduled when it
    returns. *)
Theorem C7_compile_failure depth s path st source :
  c_str s = path ->
  path <> EmptyString ->
  createV8StringFromFile E path = Contents source ->
  Script_Compile E source path = None ->
  exists st',
    IncludeScript E depth (Some path) st = (Returned (Some VUndefined), true, st') /\
    IncludeScriptWrapper E depth [VStr s] st = (Some VUndefined, st') /\
    heap st' = heap st /\
    pending st' = Some (CompileError E source path) /\
    trace st' = trace st ++ [EvRead path; EvCompile path].
Proof.
  intros Hs Hne Hread Hcomp.
  pose proof (IncludeScript_compile_failure E depth path st source
                Hne Hread Hcomp) as Hinc.
  eexists. split; [exact Hinc |]. split.
  - rewrite IncludeScriptWrapper_unfold. simpl. by rewrite Hs, Hinc.
  - simpl. by rewrite <- app_assoc.
Qed.

(** C8.  A missing or empty path makes [IncludeScript] return with the
    failure flag set and its error scheduled, and a wrapper call with any
    number of arguments other than one returns with the arity error
    scheduled; in both cases nothing else changes: no file is read, the heap
    is untouched. *)
Theorem C8_bad_input_rejected depth (p : option string) (arguments : list Value) st :
  p = None \/ p = Some EmptyString ->
  length arguments <> 1 ->
  (IncludeScript E depth p st
   = (Returned (Some VUndefined), true,
      set_pending (Some (Exception_Error
        "webOS 'include' requires a non-empty filename argument.")) st)) /\
  (IncludeScriptWrapper E depth arguments st
   = (Some VUndefined,
      set_pending (Some (Exception_Error
        "Invalid number of parameters, 1 expected.")) st)) /\
  trace (IncludeScript E depth p st).2 = trace st /\
  heap (IncludeScript E depth p st).2 = heap st /\
  trace (IncludeScriptWrapper E depth arguments st).2 = trace st /\
  heap (IncludeScriptWrapper E depth arguments st).2 = heap st.
Proof.
  intros Hp Hlen.
  assert (IncludeScript E depth p st
          = (Returned (Some VUndefined), true,
             set_pending (Some (Exception_Error
               "webOS 'include' requires a non-empty filename argument.")) st))
    as Hinc by (by destruct Hp as [-> | ->]).
  assert (IncludeScriptWrapper E depth arguments st
          = (Some VUndefined,
             set_pending (Some (Exception_Error
               "Invalid number of parameters, 1 expected.")) st)) as Hwrap.
  { by destruct arguments as [| a [| b rest]]. }
  rewrite Hinc, Hwrap. done.
Qed.

(** C9.  When the file cannot be read, the reader's C++ exception leaves
    [IncludeScript] with the failure flag set, and the wrapper, called with a
    string [s] whose C string is the path, turns it into a scheduled error;
    the read is all that happened: every property of every object, the
    identity globals among them, reads as before the call. *)
Theorem C9_read_failure depth s path st e :
  c_str s = path ->
  path <> EmptyString ->
  createV8StringFromFile E path = ReadFailure e ->
  IncludeScript E depth (Some path) st
  = (CxxThrown e, true, log (EvRead path) st) /\
  IncludeScriptWrapper E depth [VStr s] st
  = (Some VUndefined,
     set_pending
       (Some (Exception_Error
          match e with
          | StdException what => what
          | UnknownException => "Native function threw an unknown exception."
          end))
       (log (EvRead path) st)) /\
  forall o name,
    ObjGet (heap (IncludeScript E depth (Some path) st).2) o name
    = ObjGet (heap st) o name /\
    ObjGet (heap (IncludeScriptWrapper E depth [VStr s] st).2) o name
    = ObjGet (heap st) o name.
Proof.
  intros Hs Hne Hread.
  pose proof (IncludeScript_read_failure E depth path st e Hne Hread) as Hinc.
  assert (IncludeScriptWrapper E depth [VStr s] st
          = (Some VUndefined,
             set_pending
               (Some (Exception_Error
                  match e with
                  | StdException what => what
                  | UnknownException =>
                      "Native function threw an unknown exception."
                  end))
               (log (EvRead path) st))) as Hwrap.
  { rewrite IncludeScriptWrapper_unfold. simpl. rewrite Hs, Hinc.
    by destruct e. }
  rewrite Hinc, Hwrap. done.
Qed.

(** C10.  A wrapper call with one argument that is not a string, and that the
    engine converts to the text [s], does exactly what the call with the
    string [s] does: the C string of [s] is the path.  When that is not
    empty the call begins with reading the file of that name, and when it is
    empty the call ends with the empty-path error, not with the arity
    error. *)
Theorem C10_non_string_argument_coerced depth v s st :
  IsString v = false ->
  Utf8Value E v = Some s ->
  IncludeScriptWrapper E depth [v] st = IncludeScriptWrapper E depth [VStr s] st /\
  (c_str s <> EmptyString ->
   exists rest,
     trace (IncludeScriptWrapper E depth [v] st).2
     = trace st ++ EvRead (c_str s) :: rest) /\
  (c_str s = EmptyString ->
   pending (IncludeScriptWrapper E depth [v] st).2
   = Some (Exception_Error
       "webOS 'include' requires a non-empty filename argument.")).
Proof.
  intros _ Hconv. rewrite !IncludeScriptWrapper_unfold. simpl Utf8Value.
  rewrite Hconv. simpl fmap. split; [done |]. split.
  - intros Hne.
    pose proof (IncludeScript_reads_first E depth (c_str s) st Hne) as Hev.
    assert (evolves (log (EvRead (c_str s)) st)
              match IncludeScript E depth (Some (c_str s)) st with
              | (Returned h, _, st') => (h, st')
              | (CxxThrown (StdException what), _, st') =>
                  ThrowException (Exception_Error what) st'
              | (CxxThrown UnknownException, _, st') =>
                  ThrowException (Exception_Error
                    "Native function threw an unknown exception.") st'
              end.2) as [_ [t Ht]].
    { destruct (IncludeScript E depth (Some (c_str s)) st)
        as [[[h | [what |]] b] st']; simpl in *; [done | |];
        (eapply evolves_trans; [exact Hev | apply evolves_set_pending]). }
    exists t. rewrite Ht. simpl. by rewrite <- app_assoc.
  - by intros ->.
Qed.

End Claims.

(** ** Further properties of the loader *)

Section Identity.

Variable E : Engine.

Lemma heap_set_identity g path st :
  heap (SetFileAndDirectoryGlobals E g path st)
  = <[g := <[kDirNameGlobal := VStr (parent_path E (system_complete E path))]>
             (<[kFileNameGlobal := VStr (system_complete E path)]>
                (default ∅ (heap st !! g)))]> (heap st).
Proof.
  unfold SetFileAndDirectoryGlobals, ObjSet. simpl.
  by rewrite lookup_insert_eq, insert_insert_eq.
Qed.

Lemma heap_clear_identity g st :
  heap (ClearFileAndDirectoryGlobals g st)
  = <[g := <[kDirNameGlobal := VUndefined]>
             (<[kFileNameGlobal := VUndefined]>
                (default ∅ (heap st !! g)))]> (heap st).
Proof.
  unfold ClearFileAndDirectoryGlobals, ObjSet. simpl.
  by rewrite lookup_insert_eq, insert_insert_eq.
Qed.

(** Writing both identity globals over a map that already holds values for
    them forgets the old values. *)
Lemma identity_overwrite (m : Props) f d f' d' :
  <[kDirNameGlobal := d']> (<[kFileNameGlobal := f']>
     (<[kDirNameGlobal := d]> (<[kFileNameGlobal := f]> m)))
  = <[kDirNameGlobal := d']> (<[kFileNameGlobal := f']> m).
Proof.
  apply map_eq. intros k. rewrite !lookup_insert.
  by repeat case_decide.
Qed.

(** X1.  [SetFileAndDirectoryGlobals] and [ClearFileAndDirectoryGlobals]
    write the two identity globals of the object they are given and nothing
    else: every other property of every object reads as before, and neither
    the current context nor the scheduled exception changes. *)
Theorem X1_identity_writes_frame g path st o name :
  (o, name) <> (g, kFileNameGlobal) ->
  (o, name) <> (g, kDirNameGlobal) ->
  ObjGet (heap (SetFileAndDirectoryGlobals E g path st)) o name
  = ObjGet (heap st) o name /\
  ObjGet (heap (ClearFileAndDirectoryGlobals g st)) o name
  = ObjGet (heap st) o name /\
  current (SetFileAndDirectoryGlobals E g path st) = current st /\
  pending (SetFileAndDirectoryGlobals E g path st) = pending st /\
  current (ClearFileAndDirectoryGlobals g st) = current st /\
  pending (ClearFileAndDirectoryGlobals g st) = pending st.
Proof.
  intros H1 H2. split; [| split; [by apply clear_identity_frame | done]].
  unfold SetFileAndDirectoryGlobals. by rewrite !ObjGet_ObjSet_ne.
Qed.


(** X3.  [CopyProperty] copies a value once.  A name the source object does
    not have is still bound on the destination, to undefined; and when source
    and destination differ, a later assignment of the name on the source does
    not change what the destination holds. *)
Theorem X3_copy_property_snapshot src dst name v st :
  src <> dst ->
  ObjGet (heap (CopyProperty src dst name st)) dst name
  = ObjGet (heap st) src name /\
  ObjGet (heap (ObjSet src name v (CopyProperty src dst name st))) dst name
  = ObjGet (heap st) src name /\
  is_Some (heap (CopyProperty src dst name st) !! dst ≫= (.!! name)) /\
  (ObjGet (heap st) src name = VUndefined ->
   heap (CopyProperty src dst name st) !! dst ≫= (.!! name)
   = Some VUndefined).
Proof.
  intros Hne. unfold CopyProperty.
  split; [apply ObjGet_ObjSet_eq |]. split.
  - rewrite ObjGet_ObjSet_ne by congruence. apply ObjGet_ObjSet_eq.
  - rewrite ObjSet_lookup_eq. simpl. rewrite lookup_insert_eq.
    split; [done |]. by intros ->.
Qed.

End Identity.

Section Results.

Variable E : Engine.

(** X4.  The failure flag of [IncludeScript] is clear only when the file was
    read, compiled and ran to a normal completion; the handle returned then
    holds the completion value, and the state is the one the run left, with
    the identity globals cleared. *)
Theorem X4_flag_clear_means_completed depth p st o st' :
  IncludeScript E depth p st = (o, false, st') ->
  exists path source script v st2,
    p = Some path /\ path <> EmptyString /\
    createV8StringFromFile E path = Contents source /\
    Script_Compile E source path = Some script /\
    RunScript (native_include E depth) script (run_entry E path st)
    = (Normal v, st2) /\
    o = Returned (Some v) /\
    st' = ClearFileAndDirectoryGlobals (ctx_global (current st)) st2.
Proof.
  intros Hinc. destruct p as [path |]; [| done].
  destruct (decide (path = EmptyString)) as [-> | Hne]; [done |].
  destruct (createV8StringFromFile E path) as [source | e] eqn:Hread.
  2: { by rewrite (IncludeScript_read_failure E depth path st e) in Hinc. }
  destruct (Script_Compile E source path) as [script |] eqn:Hcomp.
  2: { by rewrite (IncludeScript_compile_failure E depth path st source)
         in Hinc. }
  rewrite (IncludeScript_run E depth path st source script) in Hinc by done.
  destruct (RunScript _ script _) as [[v | e] st2] eqn:Hrun; [| done].
  injection Hinc as <- <-. by exists path, source, script, v, st2.
Qed.

Lemma IncludeScript_empty_handle depth p st b st' :
  IncludeScript E depth p st = (Returned None, b, st') ->
  is_Some (pending st').
Proof.
  intros Hinc. destruct p as [path |]; [| done].
  destruct (decide (path = EmptyString)) as [-> | Hne]; [done |].
  destruct (createV8StringFromFile E path) as [source | e] eqn:Hread.
  2: { by rewrite (IncludeScript_read_failure E depth path st e) in Hinc. }
  destruct (Script_Compile E source path) as [script |] eqn:Hcomp.
  2: { by rewrite (IncludeScript_compile_failure E depth path st source)
         in Hinc. }
  rewrite (IncludeScript_run E depth path st source script) in Hinc by done.
  destruct (RunScript _ script _) as [[v | e] st2] eqn:Hrun; [done |].
  injection Hinc as <- <-. by exists e.
Qed.

(** X5.  An empty handle never comes back alone: when [IncludeScriptWrapper]
    returns an empty handle, an exception is scheduled in the state it
    returns, and the call had exactly one argument. *)
Theorem X5_empty_handle_has_exception depth arguments st :
  (IncludeScriptWrapper E depth arguments st).1 = None ->
  is_Some (pending (IncludeScriptWrapper E depth arguments st).2) /\
  length arguments = 1.
Proof.
  destruct arguments as [| a [| a' rest]]; try done.
  rewrite IncludeScriptWrapper_unfold.
  destruct (IncludeScript E depth (c_str <$> Utf8Value E a) st)
    as [[[h | [what |]] b] st'] eqn:Hinc; simpl; try done.
  intros ->. split; [| done]. by eapply IncludeScript_empty_handle.
Qed.

End Results.

Section Growth.

Variable E : Engine.

Local Abbreviation home := (ctx_global (ModuleContext E)).

Lemma count_events_app p t1 t2 :
  count_events p (t1 ++ t2) = count_events p t1 + count_events p t2.
Proof. unfold count_events. by rewrite filter_app, length_app. Qed.

Lemma tidy_nil g h : tidy g h [].
Proof. split; [constructor | done]. Qed.

Lemma tidy_app g h t1 t2 : tidy g h t1 -> tidy g h t2 -> tidy g h (t1 ++ t2).
Proof.
  intros [Hf1 Hc1] [Hf2 Hc2]. split.
  - by apply Forall_app.
  - rewrite !count_events_app. lia.
Qed.

(** What happened to [h] alone happened to [g] or [h]. *)
Lemma tidy_home g h t : tidy h h t -> tidy g h t.
Proof.
  intros [Hf Hc]. split; [| done].
  eapply Forall_impl; [exact Hf |].
  intros [| | g' path | g' | g']; simpl; tauto.
Qed.

Lemma grows_refl g h st : grows g h st st.
Proof.
  split; [done |]. exists []. split; [by rewrite app_nil_r | apply tidy_nil].
Qed.

Lemma grows_trans g h st1 st2 st3 :
  grows g h st1 st2 -> grows g h st2 st3 -> grows g h st1 st3.
Proof.
  intros [Hc1 (t1 & Ht1 & Hq1)] [Hc2 (t2 & Ht2 & Hq2)].
  split; [congruence |]. exists (t1 ++ t2).
  split; [by rewrite Ht2, Ht1, app_assoc | by apply tidy_app].
Qed.

(** A step that leaves context and log alone. *)
Lemma grows_silent g h st st' :
  current st' = current st -> trace st' = trace st -> grows g h st st'.
Proof.
  intros Hc Ht. split; [done |]. exists [].
  split; [by rewrite app_nil_r | apply tidy_nil].
Qed.

Section Native.

Variable native : list Value -> State -> Handle * State.
Hypothesis native_grows :
  forall arguments st,
    grows (ctx_global (current st)) home st (native arguments st).2.

Lemma RunScript_grows s st :
  grows (ctx_global (current st)) home st (RunScript native s st).2.
Proof.
  revert st. induction s as [c | f k IH | k IH | arguments k IH];
    intros st; simpl.
  - apply grows_refl.
  - apply (grows_trans _ _ st
             (set_heap (f (ctx_global (current st)) (heap st)) st));
      [by apply grows_silent |].
    exact (IH (set_heap (f (ctx_global (current st)) (heap st)) st)).
  - apply IH.
  - pose proof (native_grows arguments st) as Hn.
    destruct (native arguments st) as [h st1]. simpl in Hn.
    assert (current st1 = current st) as Hc by apply Hn.
    destruct (pending st1).
    + apply (grows_trans _ _ st st1); [exact Hn |].
      apply (grows_trans _ _ st1 (set_pending None st1));
        [by apply grows_silent |].
      rewrite <- Hc. exact (IH _ (set_pending None st1)).
    + apply (grows_trans _ _ st st1); [exact Hn |].
      rewrite <- Hc. exact (IH _ st1).
Qed.

Lemma IncludeScript_in_grows p st :
  grows (ctx_global (current st)) home st (IncludeScript_in E native p st).2.
Proof.
  set (g := ctx_global (current st)).
  assert (forall path, tidy g home [EvRead path]) as Hread
    by (by repeat constructor).
  assert (forall path, tidy g home [EvRead path; EvCompile path]) as Hcomp
    by (by repeat constructor).
  unfold IncludeScript_in.
  destruct p as [[| a path] |]; simpl; try by apply grows_silent.
  destruct (createV8StringFromFile E _); simpl.
  2: { split; [done |]. by eexists. }
  destruct (Script_Compile E _ _) as [script |]; simpl.
  2: { split; [done |]. eexists. split; [| apply Hcomp].
       simpl. by rewrite <- app_assoc. }
  unfold Script_Run.
  match goal with |- context [RunScript native script ?s0] =>
    pose proof (RunScript_grows script s0) as [Hc (t & Ht & Hq)];
    destruct (RunScript native script s0) as [c st2] end.
  simpl in Hc, Ht. fold g in Hq.
  assert (grows g home st (ClearFileAndDirectoryGlobals g
                        match c with
                        | Normal _ => st2
                        | Thrown e => set_pending (Some e) st2
                        end)) as Hg.
  { split; [by destruct c |].
    exists ([EvRead (String a path); EvCompile (String a path);
             EvSetIdentity g (String a path); EvRun g] ++ t
            ++ [EvClearIdentity g]).
    split.
    - assert (trace match c with
                    | Normal _ => st2
                    | Thrown e => set_pending (Some e) st2
                    end = trace st2) as Hsame by (by destruct c).
      simpl. rewrite Hsame, Ht. by rewrite <- !app_assoc.
    - destruct Hq as [Hf Hn]. split.
      + apply Forall_app. split; [repeat constructor; by left |].
        apply Forall_app. split; [done | repeat constructor; by left].
      + rewrite !count_events_app, Hn.
        change (count_events is_set [EvClearIdentity g]) with 0.
        change (count_events is_clear [EvClearIdentity g]) with 1.
        change (count_events is_set
                  [EvRead (String a path); EvCompile (String a path);
                   EvSetIdentity g (String a path); EvRun g]) with 1.
        change (count_events is_clear
                  [EvRead (String a path); EvCompile (String a path);
                   EvSetIdentity g (String a path); EvRun g]) with 0.
        lia. }
  by destruct c.
Qed.

Lemma IncludeScriptWrapper_in_grows arguments st :
  grows (ctx_global (current st)) home st
    (IncludeScriptWrapper_in E native arguments st).2.
Proof.
  unfold IncludeScriptWrapper_in.
  destruct arguments as [| a [| b rest]]; try by apply grows_silent.
  pose proof (IncludeScript_in_grows (c_str <$> Utf8Value E a) st) as Hi.
  destruct (IncludeScript_in E native _ st)
    as [[[h | [what |]] b] st']; simpl in *; [done | |];
    (eapply grows_trans; [exact Hi | by apply grows_silent]).
Qed.

End Native.

(** A nested [include] runs in the module's context: all it does, it does
    to the global object of that context. *)
Lemma native_include_grows depth arguments st :
  grows (ctx_global (current st)) home st
    (native_include E depth arguments st).2.
Proof.
  revert arguments st. induction depth as [| d IH]; intros arguments st.
  - by apply grows_silent.
  - simpl.
    pose proof (IncludeScriptWrapper_in_grows _ IH arguments
                  (set_current (ModuleContext E) st)) as [_ (t & Ht & Hq)].
    destruct (IncludeScriptWrapper_in E _ arguments _) as [h st'].
    split; [done |]. exists t. split; [exact Ht |].
    by apply tidy_home.
Qed.


End Growth.

Section Composer.

Variable E : Engine.

(** What [Require] with an empty list returns, with the objects it did not
    create. *)
Lemma Require_nil_spec depth nativeRequire loader st :
  exists g e,
    (Require E depth nativeRequire loader [] st).1 = Returned (Some (VObj g)) /\
    heap st !! g = None /\ heap st !! e = None /\ g <> e /\
    heap (Require E depth nativeRequire loader [] st).2 !! e = Some ∅ /\
    heap (Require E depth nativeRequire loader [] st).2 !! g
    = Some (list_to_map (composed_bindings g e (ctx_global (current st))
                           nativeRequire loader (heap st))) /\
    forall o, o <> g -> o <> e ->
      heap (Require E depth nativeRequire loader [] st).2 !! o = heap st !! o.
Proof.
  destruct (seed_context_spec nativeRequire loader st)
    as (g & e & st0 & Hseed & Hfg & Hfe & Hge & _ & _ & _ & Hg & He & Hfr).
  exists g, e. rewrite (Require_unfold E depth _ _ _ _ _ _ Hseed).
  change (load_files E depth g [] st0) with (Completed, st0).
  cbn [fst snd]. do 4 (split; [done |]).
  change (heap (set_current ?c ?s)) with (heap s). split; [| split].
  - by rewrite clear_identity_lookup_ne.
  - rewrite clear_identity_lookup_eq, Hg. reflexivity.
  - intros o Hog Hoe. rewrite clear_identity_lookup_ne by done. by apply Hfr.
Qed.

Lemma composed_bindings_exports g e host nativeRequire loader h0 :
  (list_to_map (composed_bindings g e host nativeRequire loader h0) : Props)
  !! "exports" = Some (VObj e).
Proof. reflexivity. Qed.

Lemma load_files_rejected depth g filePaths st h st' :
  load_files E depth g filePaths st = (Rejected h, st') -> h = Some VUndefined.
Proof.
  revert st. induction filePaths as [| v rest IH]; intros st; simpl; [done |].
  destruct v; try by intros [= <- <-].
  destruct (IncludeScript E depth _ _) as [[[h' | e] [|]] st2]; try done.
  apply IH.
Qed.

(** X7.  Whatever the file list, an object [Require] returns is one it
    created: it is the global object of the new context, and no object of
    the heap [Require] was called in. *)
Theorem X7_returned_global_is_fresh depth nativeRequire loader filePaths st g :
  (Require E depth nativeRequire loader filePaths st).1
  = Returned (Some (VObj g)) ->
  g = (seed_context nativeRequire loader st).1 /\ heap st !! g = None.
Proof.
  destruct (seed_context_spec nativeRequire loader st)
    as (g' & e & st0 & Hseed & Hfg & _).
  rewrite (Require_unfold E depth _ _ _ _ _ _ Hseed), Hseed.
  destruct (load_files E depth g' filePaths st0) as [[| | h | x] st1] eqn:Hl;
    cbn [fst snd]; intros Hret.
  - by injection Hret as <-.
  - by injection Hret as <-.
  - apply load_files_rejected in Hl as ->. done.
  - done.
Qed.

(** X8.  Seeding the new context writes to no object that existed before:
    in the state the first file is loaded in, and for an empty list in the
    state [Require] returns, every object of the caller's heap, its global
    object among them, has the properties it had. *)
Theorem X8_seeding_spares_existing_objects depth nativeRequire loader st o :
  is_Some (heap st !! o) ->
  heap (seed_context nativeRequire loader st).2 !! o = heap st !! o /\
  heap (Require E depth nativeRequire loader [] st).2 !! o = heap st !! o.
Proof.
  intros Hsome. split.
  - destruct (seed_context_spec nativeRequire loader st)
      as (g & e & st0 & -> & Hfg & Hfe & _ & _ & _ & _ & _ & _ & Hfr).
    apply Hfr; intros ->;
      [rewrite Hfg in Hsome | rewrite Hfe in Hsome]; by destruct Hsome.
  - destruct (Require_nil_spec depth nativeRequire loader st)
      as (g & e & _ & Hfg & Hfe & _ & _ & _ & Hfr).
    apply Hfr; intros ->;
      [rewrite Hfg in Hsome | rewrite Hfe in Hsome]; by destruct Hsome.
Qed.

(** X9.  Two calls of [Require] with empty lists, one after the other, return
    two different global objects with two different exports objects, and the
    second call leaves the bindings of the first global object as they
    were. *)
Theorem X9_sequential_compositions_independent depth depth'
    nativeRequire loader nativeRequire' loader' st :
  let first := Require E depth nativeRequire loader [] st in
  let second := Require E depth' nativeRequire' loader' [] first.2 in
  exists g1 g2,
    first.1 = Returned (Some (VObj g1)) /\
    second.1 = Returned (Some (VObj g2)) /\
    g1 <> g2 /\
    ObjGet (heap second.2) g1 "exports" <> ObjGet (heap second.2) g2 "exports" /\
    heap second.2 !! g1 = heap first.2 !! g1.
Proof.
  intros first second. subst first second.
  destruct (Require_nil_spec depth nativeRequire loader st)
    as (g1 & e1 & Hr1 & _ & _ & Hge1 & He1 & Hg1 & _).
  set (st1 := (Require E depth nativeRequire loader [] st).2) in *.
  destruct (Require_nil_spec depth' nativeRequire' loader' st1)
    as (g2 & e2 & Hr2 & Hfg2 & Hfe2 & Hge2 & He2 & Hg2 & Hfr2).
  assert (g1 <> g2) as Hg12 by (intros <-; by rewrite Hg1 in Hfg2).
  assert (g1 <> e2) as Hg1e2 by (intros <-; by rewrite Hg1 in Hfe2).
  assert (e1 <> e2) as He12 by (intros <-; by rewrite He1 in Hfe2).
  exists g1, g2. do 3 (split; [done |]).
  assert (heap (Require E depth' nativeRequire' loader' [] st1).2 !! g1
          = heap st1 !! g1) as Hsame by (by apply Hfr2).
  split; [| exact Hsame].
  unfold ObjGet. rewrite Hsame, Hg1, Hg2. cbn [mbind option_bind].
  rewrite !composed_bindings_exports. unfold default.
  intros Heq. apply He12. by injection Heq.
Qed.

End Composer.

Section Boundary.

Variable E : Engine.
Variable K : Shapes.

Lemma load_files_concerns depth g filePaths st :
  ctx_global (current st) = g ->
  current (load_files E depth g filePaths st).2 = current st /\
  exists t,
    trace (load_files E depth g filePaths st).2 = trace st ++ t /\
    Forall (concerns g (ctx_global (ModuleContext E))) t.
Proof.
  revert st. induction filePaths as [| v rest IH]; intros st Hg.
  - split; [done |]. exists []. by rewrite app_nil_r.
  - assert (current (set_pending (Some (Exception_Error
              "All elements of file paths array must be strings.")) st)
            = current st /\
            exists t, trace st = trace st ++ t /\
                      Forall (concerns g (ctx_global (ModuleContext E))) t)
      as Hrej.
    { split; [done |]. exists []. by rewrite app_nil_r. }
    destruct v; simpl; try exact Hrej. clear Hrej.
    set (path := c_str s).
    set (st1 := SetFileAndDirectoryGlobals E g path st).
    pose proof (IncludeScript_in_grows E _ (native_include_grows E depth)
                  (Some path) st1) as [Hc (t & Ht & [Hf _])].
    change (IncludeScript_in E (native_include E depth) (Some path) st1)
      with (IncludeScript E depth (Some path) st1) in Hc, Ht.
    change (ctx_global (current st1)) with (ctx_global (current st)) in Hf.
    rewrite Hg in Hf.
    assert (trace st1 = trace st ++ [EvSetIdentity g path]) as Hst1 by done.
    destruct (IncludeScript E depth (Some path) st1) as [[[h | e] [|]] st2];
      cbn [fst snd] in Hc, Ht |- *.
    1, 3, 4: split; [done |]; exists (EvSetIdentity g path :: t);
      split; [by rewrite Ht, Hst1, <- app_assoc
             | constructor; [by left | done]].
    destruct (IH st2) as [Hc' (t' & Ht' & Hf')]; [by rewrite Hc |].
    split; [by rewrite Hc', Hc |].
    exists (EvSetIdentity g path :: t ++ t'). split.
    + rewrite Ht', Ht, Hst1. by rewrite <- !app_assoc.
    + constructor; [by left | by apply Forall_app].
Qed.

(** X10.  The elements of the file list are checked one at a time, as the
    loop reaches them.  When the files [before] an element that is not a
    string load without failure, [Require] returns undefined with its error
    scheduled, in the state those loads left: what the files did stands, and
    nothing is cleared. *)
Theorem X10_non_string_entry_after_loads depth nativeRequire loader
    before v after st g st0 st1 :
  seed_context nativeRequire loader st = (g, st0) ->
  load_files E depth g before st0 = (Completed, st1) ->
  IsString v = false ->
  Require E depth nativeRequire loader (before ++ v :: after) st
  = (Returned (Some VUndefined),
     set_current (current st)
       (set_pending (Some (Exception_Error
          "All elements of file paths array must be strings.")) st1)).
Proof.
  intros Hseed Hbefore Hv.
  rewrite (Require_unfold E depth _ _ _ _ _ _ Hseed), load_files_app, Hbefore.
  by destruct v.
Qed.

(** X11.  [RequireWrapper] has no handler for C++ exceptions.  When a file of
    the list (the element [s], whose C string is [path]) cannot be read,
    after the files [before] it loaded without failure, the reader's
    exception leaves [Require] and [RequireWrapper]; the caller's context is
    current again, but nothing was cleared: the identity globals of the new
    global object still name that file. *)
Theorem X11_read_failure_escapes_require depth nativeRequire loader array
    before s path after st g st0 st1 e :
  c_str s = path ->
  IsFunction K nativeRequire = true ->
  IsArray K array = true ->
  Elements K array = before ++ VStr s :: after ->
  seed_context nativeRequire loader st = (g, st0) ->
  load_files E depth g before st0 = (Completed, st1) ->
  path <> EmptyString ->
  createV8StringFromFile E path = ReadFailure e ->
  let final := set_current (current st)
                 (log (EvRead path) (SetFileAndDirectoryGlobals E g path st1)) in
  RequireWrapper E K depth [nativeRequire; loader; array] st
  = (CxxThrown e, final) /\
  Require E depth nativeRequire loader (before ++ VStr s :: after) st
  = (CxxThrown e, final) /\
  identity_is g (VStr (system_complete E path))
    (VStr (parent_path E (system_complete E path))) final.
Proof.
  intros Hs Hfun Harr Helems Hseed Hbefore Hne Hread final.
  assert (Require E depth nativeRequire loader (before ++ VStr s :: after) st
          = (CxxThrown e, final)) as Hreq.
  { rewrite (Require_unfold E depth _ _ _ _ _ _ Hseed), load_files_app, Hbefore.
    simpl. rewrite Hs.
    by rewrite (IncludeScript_read_failure E depth path _ e). }
  split; [| split; [exact Hreq |]].
  - unfold RequireWrapper. by rewrite Hfun, Harr, Helems.
  - apply (set_identity_is E g path st1).
Qed.

(** X12.  A call [RequireWrapper] does not accept (not three arguments, a
    first argument that is not a function, a third that is not an array) has
    no effect but the error it schedules: no context is created, no object
    and no log entry is added.  The arity is checked first, then the first
    argument, whose error calls it argument 2, then the third. *)
Theorem X12_require_wrapper_rejects depth arguments st :
  accepts K arguments = false ->
  RequireWrapper E K depth arguments st
  = (Returned (Some VUndefined),
     set_pending
       (Some (Exception_Error
          match arguments with
          | [argument0; _; _] =>
              if IsFunction K argument0 then "Argument 3 must be an array."
              else "Argument 2 must be an function."
          | _ => "Invalid number of parameters, 3 expected."
          end)) st).
Proof.
  intros Hacc. unfold RequireWrapper.
  destruct arguments as [| a0 [| a1 [| a2 [| a3 rest]]]]; try done.
  simpl in Hacc. destruct (IsFunction K a0); [| done].
  simpl in Hacc |- *. by rewrite Hacc.
Qed.


(** X14.  An empty string in the file list is a failed load.  When the files
    [before] it load without failure, the identity globals are first set
    from the empty path, [IncludeScript] then refuses it, and [Require]
    clears them and returns the new global object with the empty-path error
    scheduled; the files [after] it are not loaded. *)
Theorem X14_empty_name_in_list depth nativeRequire loader before after
    st g st0 st1 :
  seed_context nativeRequire loader st = (g, st0) ->
  load_files E depth g before st0 = (Completed, st1) ->
  Require E depth nativeRequire loader (before ++ VStr EmptyString :: after) st
  = (Returned (Some (VObj g)),
     set_current (current st)
       (ClearFileAndDirectoryGlobals g
          (set_pending (Some (Exception_Error
             "webOS 'include' requires a non-empty filename argument."))
             (SetFileAndDirectoryGlobals E g EmptyString st1)))).
Proof.
  intros Hseed Hbefore.
  by rewrite (Require_unfold E depth _ _ _ _ _ _ Hseed), load_files_app, Hbefore.
Qed.

End Boundary.

(** ** The loader run on the sample engine *)

Import Sample.

(** [/b.js] leaves the identity globals alone. *)
Lemma script_b_calm g : calm g script_b.
Proof.
  simpl. split; [| done]. intros h. unfold ObjGet.
  rewrite lookup_insert_eq. simpl.
  rewrite !lookup_insert_ne by done. by destruct (h !! g).
Qed.

Lemma C1_identity_set_then_cleared_witness :
  identity_is 0 (VStr "/b.js") (VStr "/") (run_entry engine "/b.js" host) /\
  during (native_include engine 1) (identity_is 0 (VStr "/b.js") (VStr "/"))
    script_b (run_entry engine "/b.js" host) /\
  (IncludeScript engine 1 (Some "/b.js") host).1
  = (Returned (Some (VNum double_7)), false) /\
  identity_absent 0 (IncludeScript engine 1 (Some "/b.js") host).2.
Proof.
  destruct (C1_identity_set_then_cleared engine 1 "/b.js" host
              "answer = 42; 7" script_b) as (Hentry & Hduring & Hinc & Habs).
  - done.
  - reflexivity.
  - reflexivity.
  - split; [exact Hentry |]. split; [| split; [| exact Habs]].
    + apply Hduring. apply script_b_calm.
    + rewrite Hinc. vm_compute. reflexivity.
Defined.

(** C1 as worded fails: [/a.js] includes [/b.js], whose load clears the
    identity globals, so the rest of [/a.js] runs with both absent; the value
    [/a.js] completes with is what it read [__filename] as. *)
Lemma C1_nested_include_counterexample :
  (IncludeScript engine 1 (Some "/a.js") host).1
  = (Returned (Some VUndefined), false) /\
  ~ identity_throughout_then_absent engine 1 "/a.js" host.
Proof.
  split; [by vm_compute |]. intros Hclaim.
  destruct (Hclaim _ script_a eq_refl eq_refl) as [Hduring _].
  vm_compute in Hduring.
  destruct Hduring as [_ [[Hfile _] _]]. discriminate Hfile.
Qed.

(** C2 as worded fails: in the global object returned for an empty list
    [global] is the only name bound to the object itself, where the wording
    asks for two. *)
Lemma C2_seeded_bindings_counterexample :
  (Require engine 1 nativeRequire loader [] host).1
  = Returned (Some (VObj 5)) /\
  size (dom (default (∅ : Props)
               (heap (Require engine 1 nativeRequire loader [] host).2 !! 5)))
  = 13 /\
  ~ exactly_seeded
      (default ∅ (heap (Require engine 1 nativeRequire loader [] host).2 !! 5))
      5 0 nativeRequire loader (default ∅ (heap host !! 0)).
Proof.
  split; [by vm_compute |]. split; [by vm_compute |].
  intros (e & s1 & s2 & ln & c1 & c2 & c3 & c4 & Hnd & _ & _ & H1 & H2 & _).
  assert (forall k,
            default (∅ : Props)
              (heap (Require engine 1 nativeRequire loader [] host).2 !! 5)
            !! k = Some (VObj 5) -> k = "global") as Hone.
  { intros k Hk. apply elem_of_map_to_list in Hk.
    match type of Hk with _ ∈ ?l =>
      let l' := eval vm_compute in l in change l with l' in Hk end.
    repeat (apply elem_of_cons in Hk as [Hk | Hk]; [by inversion Hk |]).
    by apply elem_of_nil in Hk. }
  apply Hone in H1. apply Hone in H2. subst s1 s2.
  apply NoDup_cons in Hnd as [_ Hnd]. apply NoDup_cons in Hnd as [Hnot _].
  apply Hnot. by left.
Qed.

Lemma C3_fail_fast_witness :
  Require engine 1 nativeRequire loader
    ([VStr "/b.js"] ++ VStr "/throw.js" :: [VStr "/a.js"]) host
  = Require engine 1 nativeRequire loader
      ([VStr "/b.js"] ++ [VStr "/throw.js"]) host.
Proof.
  eapply (C3_fail_fast engine 1 nativeRequire loader [VStr "/b.js"]
            "/throw.js" "/throw.js" [VStr "/a.js"] host).
  - reflexivity.
  - reflexivity.
  - vm_compute. reflexivity.
  - vm_compute. reflexivity.
Defined.

Lemma C4_runtime_exception_propagates_witness :
  let st1 := (load_files engine 1 5 [VStr "/b.js"]
                (seed_context nativeRequire loader host).2).2 in
  let st := SetFileAndDirectoryGlobals engine 5 "/throw.js" st1 in
  (exists st',
     IncludeScript engine 1 (Some "/throw.js") st = (Returned None, true, st') /\
     pending st' = Some (VStr "boom") /\
     IncludeScriptWrapper engine 1 [VStr "/throw.js"] st = (None, st')) /\
  pending (Require engine 1 nativeRequire loader
             ([VStr "/b.js"] ++ VStr "/throw.js" :: [VStr "/a.js"]) host).2
  = Some (VStr "boom").
Proof.
  intros st1 st.
  destruct (C4_runtime_exception_propagates engine 1 "/throw.js" "/throw.js"
              st "throw 'boom'" script_throw (Thrown (VStr "boom"))
              (run_entry engine "/throw.js" st))
    as (st' & Hinc & Hpending & Hwrap & Hcompose).
  - reflexivity.
  - done.
  - reflexivity.
  - reflexivity.
  - reflexivity.
  - split; [exists st'; by repeat split |].
    apply (Hcompose nativeRequire loader [VStr "/b.js"] [VStr "/a.js"] host 5
             (seed_context nativeRequire loader host).2 st1).
    + vm_compute. reflexivity.
    + vm_compute. reflexivity.
    + reflexivity.
Defined.

(** C5 as worded fails: a list whose first element is a number makes
    [Require] return without clearing anything. *)
Lemma C5_rejected_list_counterexample :
  (Require engine 1 nativeRequire loader [VNum 1] host).1
  = Returned (Some VUndefined) /\
  clears_after_loop engine 1 nativeRequire loader [VNum 1] host = 0 /\
  ~ cleared_once_on_return engine 1 nativeRequire loader [VNum 1] host.
Proof.
  split; [by vm_compute |]. split; [by vm_compute |].
  intros [Hclears _]. vm_compute in Hclears. discriminate Hclears.
Qed.

(** C6.  On the list [/b.js; /missing.js; /a.js] the load of the file that
    cannot be read sets the failure flag and is left by the reader's C++
    exception; [Require], which has no handler, is left by it too: it
    returns no global object, and the identity globals of the new global
    object still name the file. *)
Theorem C6_unreadable_file_unwinds_require :
  let st1 := (load_files engine 1 5 [VStr "/b.js"]
                (seed_context nativeRequire loader host).2).2 in
  let failing := [VStr "/b.js"; VStr "/missing.js"; VStr "/a.js"] in
  (IncludeScript engine 1 (Some "/missing.js")
     (SetFileAndDirectoryGlobals engine 5 "/missing.js" st1)).1
  = (CxxThrown (StdException "No such file or directory"), true) /\
  (Require engine 1 nativeRequire loader failing host).1
  = CxxThrown (StdException "No such file or directory") /\
  ObjGet (heap (Require engine 1 nativeRequire loader failing host).2)
    5 kFileNameGlobal
  = VStr "/missing.js".
Proof. by vm_compute. Qed.

Lemma C7_compile_failure_witness :
  exists st',
    IncludeScript engine 1 (Some "/bad.js") host
    = (Returned (Some VUndefined), true, st') /\
    IncludeScriptWrapper engine 1 [VStr "/bad.js"] host = (Some VUndefined, st') /\
    heap st' = heap host /\
    pending st' = Some (VError "SyntaxError: /bad.js") /\
    trace st' = trace host ++ [EvRead "/bad.js"; EvCompile "/bad.js"].
Proof.
  apply (C7_compile_failure engine 1 "/bad.js" "/bad.js" host "function (").
  - reflexivity.
  - done.
  - reflexivity.
  - reflexivity.
Defined.

(** C7 as worded fails: after the failed compilation of [/bad.js] the
    engine's syntax error is scheduled, where none was before. *)
Lemma C7_syntax_error_counterexample :
  pending host = None /\
  pending (IncludeScript engine 1 (Some "/bad.js") host).2
  = Some (VError "SyntaxError: /bad.js") /\
  ~ compile_failure_silent engine 1 "/bad.js" host.
Proof.
  split; [done |]. split; [by vm_compute |]. intros Hclaim.
  destruct (Hclaim "function (" eq_refl eq_refl) as (_ & Hpending & _).
  vm_compute in Hpending. discriminate Hpending.
Qed.

Lemma C8_bad_input_rejected_witness :
  trace (IncludeScript engine 1 (Some EmptyString) host).2 = trace host /\
  trace (IncludeScriptWrapper engine 1 [VStr "/a.js"; VStr "/b.js"] host).2
  = trace host.
Proof.
  destruct (C8_bad_input_rejected engine 1 (Some EmptyString)
              [VStr "/a.js"; VStr "/b.js"] host)
    as (_ & _ & Htrace & _ & Htrace' & _).
  - by right.
  - simpl. lia.
  - by split.
Defined.

Lemma C9_read_failure_witness :
  IncludeScript engine 1 (Some "/missing.js") host
  = (CxxThrown (StdException "No such file or directory"), true,
     log (EvRead "/missing.js") host).
Proof.
  apply (C9_read_failure engine 1 "/missing.js" "/missing.js" host
           (StdException "No such file or directory")).
  - reflexivity.
  - done.
  - reflexivity.
Defined.

Lemma C10_non_string_argument_coerced_witness :
  IncludeScriptWrapper engine 1 [VNum double_1e21] host
  = IncludeScriptWrapper engine 1 [VStr "1e+21"] host.
Proof.
  apply (C10_non_string_argument_coerced engine 1 (VNum double_1e21) "1e+21"
           host).
  - reflexivity.
  - reflexivity.
Defined.

Lemma X1_identity_writes_frame_witness :
  ObjGet (heap (SetFileAndDirectoryGlobals engine 0 "/b.js" host)) 0 "console"
  = VObj 1 /\
  ObjGet (heap (ClearFileAndDirectoryGlobals 0 host)) 0 "console" = VObj 1.
Proof.
  destruct (X1_identity_writes_frame engine 0 "/b.js" host 0 "console")
    as (Hset & Hclear & _).
  - done.
  - done.
  - by rewrite Hset, Hclear.
Defined.

Lemma X3_copy_property_snapshot_witness :
  ObjGet (heap (ObjSet 0 "console" (VNum 1)
                  (CopyProperty 0 1 "console" host))) 1 "console"
  = VObj 1.
Proof.
  destruct (X3_copy_property_snapshot 0 1 "console" (VNum 1) host)
    as (_ & Hlater & _).
  - done.
  - by rewrite Hlater.
Defined.

Lemma X4_flag_clear_means_completed_witness :
  exists path source script v st2,
    Some "/b.js" = Some path /\ path <> EmptyString /\
    createV8StringFromFile engine path = Contents source /\
    Script_Compile engine source path = Some script /\
    RunScript (native_include engine 1) script (run_entry engine path host)
    = (Normal v, st2) /\
    (IncludeScript engine 1 (Some "/b.js") host).1.1 = Returned (Some v) /\
    (IncludeScript engine 1 (Some "/b.js") host).2
    = ClearFileAndDirectoryGlobals (ctx_global (current host)) st2.
Proof.
  apply (X4_flag_clear_means_completed engine 1 (Some "/b.js") host).
  vm_compute. reflexivity.
Defined.

Lemma X5_empty_handle_has_exception_witness :
  is_Some (pending (IncludeScriptWrapper engine 1 [VStr "/throw.js"] host).2) /\
  length [VStr "/throw.js"] = 1.
Proof.
  apply (X5_empty_handle_has_exception engine 1 [VStr "/throw.js"] host).
  vm_compute. reflexivity.
Defined.

Lemma X7_returned_global_is_fresh_witness :
  5 = (seed_context nativeRequire loader host).1 /\ heap host !! 5 = None.
Proof.
  apply (X7_returned_global_is_fresh engine 1 nativeRequire loader [] host 5).
  vm_compute. reflexivity.
Defined.

Lemma X8_seeding_spares_existing_objects_witness :
  heap (seed_context nativeRequire loader host).2 !! 0 = heap host !! 0 /\
  heap (Require engine 1 nativeRequire loader [] host).2 !! 0 = heap host !! 0.
Proof.
  apply (X8_seeding_spares_existing_objects engine 1 nativeRequire loader
           host 0).
  vm_compute. by eexists.
Defined.

Lemma X10_non_string_entry_after_loads_witness :
  (Require engine 1 nativeRequire loader
     ([VStr "/b.js"] ++ VNum 1 :: [VStr "/a.js"]) host).1
  = Returned (Some VUndefined) /\
  ObjGet (heap (Require engine 1 nativeRequire loader
                  ([VStr "/b.js"] ++ VNum 1 :: [VStr "/a.js"]) host).2)
    5 "answer"
  = VNum double_42.
Proof.
  rewrite (X10_non_string_entry_after_loads engine 1 nativeRequire loader
             [VStr "/b.js"] (VNum 1) [VStr "/a.js"] host 5
             (seed_context nativeRequire loader host).2
             (load_files engine 1 5 [VStr "/b.js"]
                (seed_context nativeRequire loader host).2).2).
  - split; [done | by vm_compute].
  - vm_compute. reflexivity.
  - vm_compute. reflexivity.
  - reflexivity.
Defined.

Lemma X11_read_failure_escapes_require_witness :
  (RequireWrapper engine
     (SampleCall.shapes [VStr "/b.js"; VStr "/missing.js"; VStr "/a.js"]) 1
     [nativeRequire; loader; VObj 7] SampleCall.host).1
  = CxxThrown (StdException "No such file or directory").
Proof.
  edestruct (X11_read_failure_escapes_require engine
               (SampleCall.shapes
                  [VStr "/b.js"; VStr "/missing.js"; VStr "/a.js"])
               1 nativeRequire loader (VObj 7) [VStr "/b.js"] "/missing.js"
               "/missing.js" [VStr "/a.js"] SampleCall.host)
    as (Hwrap & _ & _).
  - reflexivity.
  - reflexivity.
  - reflexivity.
  - reflexivity.
  - reflexivity.
  - vm_compute. reflexivity.
  - done.
  - reflexivity.
  - by rewrite Hwrap.
Defined.

Lemma X12_require_wrapper_rejects_witness :
  RequireWrapper engine (SampleCall.shapes []) 1
    [VNum 1; loader; VObj 7] SampleCall.host
  = (Returned (Some VUndefined),
     set_pending (Some (Exception_Error "Argument 2 must be an function."))
       SampleCall.host).
Proof.
  apply (X12_require_wrapper_rejects engine (SampleCall.shapes []) 1
           [VNum 1; loader; VObj 7] SampleCall.host).
  reflexivity.
Defined.

Lemma X14_empty_name_in_list_witness :
  pending (Require engine 1 nativeRequire loader
             ([VStr "/b.js"] ++ VStr EmptyString :: [VStr "/a.js"]) host).2
  = Some (Exception_Error
            "webOS 'include' requires a non-empty filename argument.").
Proof.
  rewrite (X14_empty_name_in_list engine 1 nativeRequire loader
             [VStr "/b.js"] [VStr "/a.js"] host 5
             (seed_context nativeRequire loader host).2
             (load_files engine 1 5 [VStr "/b.js"]
                (seed_context nativeRequire loader host).2).2).
  - done.
  - vm_compute. reflexivity.
  - vm_compute. reflexivity.
Defined.
